(** * when-changed: the event filter, run gate and command runner

    A shallow embedding of [src/whenchanged/whenchanged.py] (class
    [WhenChanged]) and the properties of its filtering and dispatch core.

    Conventions of the embedding:
    - a Python [str] is a [string]; characters are bytes;
    - a Python [dict] with string keys ([self.paths], [self.process_env])
      is a [gmap string string];
    - the operating system (file metadata, symlink resolution, the clock,
      the ambient environment, the observer backend) is an explicit
      [World] value that is threaded through every call;
    - the [while] loop of [is_interested] is a fuelled function returning
      [option]: [None] means "still looping after that many iterations";
    - a Python exception is a value of [exn] carried by the result. *)

From Stdlib Require Import Ascii String ZArith Lia.
From stdpp Require Import gmap strings list fin_maps.

Local Open Scope Z_scope.

(** ** [os.path] on POSIX path strings *)

Module PosixPath.

Definition sep : ascii := "/"%char.

Definition is_sep (c : ascii) : bool := Ascii.eqb c sep.

(** [lstrip_while f l] drops the longest prefix of [l] whose characters
    all satisfy [f]. *)
Fixpoint lstrip_while (f : ascii → bool) (l : list ascii) : list ascii :=
  match l with
  | [] => []
  | c :: t => if f c then lstrip_while f t else l
  end.

(** [p[:p.rfind(sep) + 1]]: the prefix of [p] up to and including its
    last separator, empty when [p] has none. *)
Definition upto_last_sep (p : list ascii) : list ascii :=
  rev (lstrip_while (λ c, negb (is_sep c)) (rev p)).

(** [head.rstrip(sep)] *)
Definition rstrip_sep (head : list ascii) : list ascii :=
  rev (lstrip_while is_sep (rev head)).

(** [posixpath.dirname]:
<<
    i = p.rfind(sep) + 1
    head = p[:i]
    if head and head != sep*len(head):
        head = head.rstrip(sep)
    return head
>> *)
Definition dirname_chars (p : list ascii) : list ascii :=
  let head := upto_last_sep p in
  if negb (forallb is_sep head) then rstrip_sep head else head.

Definition dirname (p : string) : string :=
  string_of_list_ascii (dirname_chars (list_ascii_of_string p)).

(** [iter_dirname k p] is [p] after taking the parent directory [k]
    times. *)
Fixpoint iter_dirname (k : nat) (p : string) : string :=
  match k with
  | O => p
  | S k' => iter_dirname k' (dirname p)
  end.

(** [p] is a descendant of [d] at depth [k]: [d] is reached from [p] by
    taking the parent directory [k] times, [k] at least one. *)
Definition descendant_at (k : nat) (d p : string) : Prop :=
  (0 < k)%nat ∧ iter_dirname k p = d.

End PosixPath.

Export PosixPath.

(** ** The fragment of Python's [re] used by [exclude_list] *)

Module Re.

Inductive regex : Type :=
| Chr (c : ascii)              (* a literal character, also [\.] *)
| Dot                          (* [.]: any character but a newline *)
| Cls (cs : list ascii)        (* [[px]] *)
| Eol                          (* [$] *)
| Seq (r1 r2 : regex)
| Star (r : regex)             (* [r*] *)
| Opt (r : regex).             (* [r?] *)

Definition newline : ascii := "010"%char.

(** [$] without [re.MULTILINE]: at the end of the string, or just before
    a newline that ends the string. *)
Definition at_eol (s : list ascii) : bool :=
  match s with
  | [] => true
  | [c] => Ascii.eqb c newline
  | _ => false
  end.

(** [matches r s k]: some match of [r] at the start of [s] leaves a rest
    accepted by [k].  The inner loop of [Star] only continues after an
    iteration that consumed input, which loses no match. *)
Fixpoint matches (r : regex) (s : list ascii) (k : list ascii → bool) : bool :=
  match r with
  | Chr c =>
      match s with
      | c' :: t => Ascii.eqb c' c && k t
      | [] => false
      end
  | Dot =>
      match s with
      | c' :: t => negb (Ascii.eqb c' newline) && k t
      | [] => false
      end
  | Cls cs =>
      match s with
      | c' :: t => existsb (Ascii.eqb c') cs && k t
      | [] => false
      end
  | Eol => at_eol s && k s
  | Seq r1 r2 => matches r1 s (λ s', matches r2 s' k)
  | Opt r1 => matches r1 s k || k s
  | Star r1 =>
      (fix loop (n : nat) (s : list ascii) {struct n} : bool :=
         k s ||
         match n with
         | O => false
         | S n' =>
             matches r1 s
               (λ s', (length s' <? length s)%nat && loop n' s')
         end) (length s) s
  end.

(** A match starting at some position of [s]. *)
Fixpoint search_chars (r : regex) (s : list ascii) : bool :=
  matches r s (λ _, true) ||
  match s with
  | [] => false
  | _ :: t => search_chars r t
  end.

(** [bool(re.compile(r).findall(path))]: [findall] returns the list of
    all matches, which is non-empty exactly when a match exists. *)
Definition findall_nonempty (r : regex) (path : string) : bool :=
  search_chars r (list_ascii_of_string path).

(** A literal word. *)
Fixpoint lit (w : list ascii) : regex → regex :=
  match w with
  | [] => λ r, r
  | c :: t => λ r, Seq (Chr c) (lit t r)
  end.

Definition word (w : string) (r : regex) : regex :=
  lit (list_ascii_of_string w) r.

End Re.

(** ** The watcher object *)

(** [WhenChanged.exclude_list] *)
Definition exclude_list : list Re.regex :=
  [ (* r'\..*\.sw[px]*$' : Vim swap files *)
    Re.Seq (Re.Chr ".") (Re.Seq (Re.Star Re.Dot)
      (Re.word ".sw" (Re.Seq (Re.Star (Re.Cls ["p"; "x"]%char)) Re.Eol)));
    (* r'4913$' : file creation test file *)
    Re.word "4913" Re.Eol;
    (* r'.~$' : backup files *)
    Re.Seq Re.Dot (Re.Seq (Re.Chr "~") Re.Eol);
    (* r'\.git/?' : git directories *)
    Re.word ".git" (Re.Opt (Re.Chr "/"));
    (* r'__pycache__/?' : __pycache__ directories *)
    Re.word "__pycache__" (Re.Opt (Re.Chr "/")) ].

(** The [for i in self.exclude_list] loop of [is_interested]: true when
    some pattern is found in [path]. *)
Definition excluded (path : string) : bool :=
  existsb (λ i, Re.findall_nonempty i path) exclude_list.


(** ** The operating system *)

(** What [os.stat] reports about a path. *)
Record Stat := { st_mtime : Z; st_isdir : bool }.

(** The part of the operating system the watcher reads.  Time stamps
    ([st_mtime], [time.time()]) are numbers on one totally ordered scale,
    taken as integers of a fixed unit. *)
Record World := {
  stat : string → option Stat;       (* [os.stat], [None] when it fails *)
  realpath : string → string;        (* [os.path.realpath] *)
  environ : gmap string string;      (* [os.environ] *)
  clock : Z;                         (* [time.time()] *)
  observer_class : string            (* the class bound to [Observer] *)
}.

(** [os.path.exists] *)
Definition path_exists (w : World) (p : string) : bool :=
  match stat w p with Some _ => true | None => false end.

(** [os.path.isdir] *)
Definition isdir (w : World) (p : string) : bool :=
  match stat w p with Some st => st_isdir st | None => false end.

(** [os.path.getmtime]; [None] when it raises [OSError]. *)
Definition getmtime (w : World) (p : string) : option Z :=
  st_mtime <$> stat w p.

(** One [subprocess.call(args, shell=..., env=..., stdout=...)]. *)
Record Call := {
  args : list string;
  shell : bool;
  env : gmap string string;
  stdout_devnull : bool              (* [stdout] is [os.devnull], else inherited *)
}.

Inductive exn : Type :=
| KeyError (key : string)
| OSError.

(** ** Strings *)

(** [str.upper] on strings of ASCII characters, where it changes the
    letters [a] to [z] only; the source applies it to the names [file]
    and [event]. *)
Definition upper_char (c : ascii) : ascii :=
  let n := nat_of_ascii c in
  if ((97 <=? n) && (n <=? 122))%nat then ascii_of_nat (n - 32) else c.

Fixpoint upper (s : string) : string :=
  match s with
  | EmptyString => EmptyString
  | String c t => String (upper_char c) (upper t)
  end.

(** [str.replace(old, new)] for a non-empty [old]: the string is scanned
    from the left, every occurrence found is replaced and the scan resumes
    after it.  [skip] counts the characters of the occurrence just replaced
    that are still to be passed over; [String.prefix old s] is
    [s.startswith(old)]. *)
Fixpoint replace_from (old new : string) (skip : nat) (s : string) : string :=
  match s with
  | EmptyString => EmptyString
  | String c t =>
      match skip with
      | S skip' => replace_from old new skip' t
      | O =>
          if String.prefix old s
          then new +:+ replace_from old new (String.length old - 1) t
          else String c (replace_from old new 0 t)
      end
  end.

Definition replace (old new s : string) : string := replace_from old new 0 s.

(** ** The watcher object *)

(** A watch held by the observer: [observer.schedule(handler, path,
    recursive)]. *)
Record Watch := { watch_path : string; watch_recursive : bool }.

Record Observer := {
  class_name : string;               (* [observer.__class__.__name__] *)
  watches : list Watch;              (* the [schedule] calls so far, in
                                        order; the observer's set of
                                        watches is the set of its
                                        elements *)
  started : bool                     (* [observer.start()] was called *)
}.

(** The attributes of a [WhenChanged] instance. *)
Record WhenChanged := {
  files : list string;
  paths : gmap string string;        (* real path ↦ path as given *)
  command : list string;
  recursive : bool;
  run_once : bool;
  run_at_start : bool;
  last_run : Z;
  verbose_mode : Z;
  quiet_mode : bool;
  process_env : gmap string string;
  observer : Observer
}.

Definition with_process_env (e : gmap string string) (self : WhenChanged)
  : WhenChanged :=
  {| files := files self; paths := paths self; command := command self;
     recursive := recursive self; run_once := run_once self;
     run_at_start := run_at_start self; last_run := last_run self;
     verbose_mode := verbose_mode self; quiet_mode := quiet_mode self;
     process_env := e; observer := observer self |}.

Definition with_last_run (t : Z) (self : WhenChanged) : WhenChanged :=
  {| files := files self; paths := paths self; command := command self;
     recursive := recursive self; run_once := run_once self;
     run_at_start := run_at_start self; last_run := t;
     verbose_mode := verbose_mode self; quiet_mode := quiet_mode self;
     process_env := process_env self; observer := observer self |}.

Definition with_observer (o : Observer) (self : WhenChanged) : WhenChanged :=
  {| files := files self; paths := paths self; command := command self;
     recursive := recursive self; run_once := run_once self;
     run_at_start := run_at_start self; last_run := last_run self;
     verbose_mode := verbose_mode self; quiet_mode := quiet_mode self;
     process_env := process_env self; observer := o |}.

(** [observer.schedule(self, p, recursive=r)] *)
Definition schedule (p : string) (r : bool) (o : Observer) : Observer :=
  {| class_name := class_name o;
     watches := watches o ++ [{| watch_path := p; watch_recursive := r |}];
     started := started o |}.

(** The body of [for p in self.paths] in [__init__]. *)
Definition schedule_path (w : World) (o : Observer) (p : string) : Observer :=
  if isdir w p
  then schedule p true o               (* [recursive=True] *)
  else schedule (dirname p) false o.   (* [recursive] defaults to [False] *)

(** [WhenChanged.__init__].  The loop over [self.paths] visits the keys
    in the order in which the map enumerates them; the observer keeps its
    watches as a set, so the order of [watches] carries no meaning. *)
Definition init (w : World) (files : list string) (command : list string)
    (recursive run_once run_at_start : bool) (verbose_mode : Z)
    (quiet_mode : bool) : WhenChanged :=
  let paths :=
    foldl (λ (paths : gmap string string) f, <[realpath w f := f]> paths)
      ∅ files in
  let observer0 :=
    {| class_name := observer_class w; watches := []; started := false |} in
  {| files := files; paths := paths; command := command;
     recursive := recursive; run_once := run_once;
     run_at_start := run_at_start; last_run := 0;
     verbose_mode := verbose_mode; quiet_mode := quiet_mode;
     process_env := environ w;
     observer := foldl (schedule_path w) observer0 (map_to_list paths).*1 |}.

(** [path in self.paths] *)
Definition registered (self : WhenChanged) (path : string) : bool :=
  bool_decide (is_Some (paths self !! path)).

(** The [while] loop of [is_interested]; one unit of [fuel] per test of
    the loop condition.  [Some true] is the [return True] inside the loop,
    [Some false] is leaving the loop (and falling to [return False]).  The
    loop variable [path] is not assigned in the body. *)
Fixpoint ancestor_walk (fuel : nat) (self : WhenChanged) (path : string)
  : option bool :=
  match fuel with
  | O => None
  | S fuel' =>
      if bool_decide (dirname path ≠ path) then
        let path_ := dirname path in
        if registered self path_ then Some true
        else ancestor_walk fuel' self path
      else Some false
  end.

(** [WhenChanged.is_interested] *)
Definition is_interested (fuel : nat) (self : WhenChanged) (path : string)
  : option bool :=
  if excluded path then Some false
  else if registered self path then Some true
  else
    let path := dirname path in
    if registered self path then Some true
    else if recursive self then ancestor_walk fuel self path
    else Some false.

(** [WhenChanged.set_envvar] *)
Definition envvar_key (name : string) : string :=
  "WHEN_CHANGED_" +:+ upper name.

Definition set_envvar (name value : string) (self : WhenChanged)
  : WhenChanged :=
  with_process_env (<[envvar_key name := value]> (process_env self)) self.

(** [WhenChanged.get_envvar]: a missing key raises [KeyError]. *)
Definition get_envvar (name : string) (self : WhenChanged) : exn + string :=
  match process_env self !! envvar_key name with
  | Some v => inr v
  | None => inl (KeyError (envvar_key name))
  end.

(** ** Running the command *)

(** What a method call leaves behind: the exception it raised, if any, the
    watcher and the operating system after it, and the child processes it
    called, oldest first. *)
Record Result := {
  raised : option exn;
  self_after : WhenChanged;
  world_after : World;
  calls : list Call
}.

Definition returns (self : WhenChanged) (w : World) (cs : list Call)
  : Result :=
  {| raised := None; self_after := self; world_after := w; calls := cs |}.

Definition raises (e : exn) (self : WhenChanged) (w : World)
    (cs : list Call) : Result :=
  {| raised := Some e; self_after := self; world_after := w; calls := cs |}.

(** A file system event as delivered by the observer. *)
Record Event := {
  src_path : string;
  dest_path : string;                (* read for moves only *)
  is_directory : bool
}.

Inductive Handler : Type := OnCreated | OnModified | OnMoved | OnDeleted.

Section Runner.

(** [subprocess.call]: the child runs to its end and leaves the
    operating system in a new state (later clock, possibly other files);
    [None] when the call raises because the child cannot be started. *)
Variable subprocess_call : Call → World → option World.

(** Lines 98-111 of [run_command]: what follows the run-once test.
    The log line is not kept; reading the event variable for it is. *)
Definition run_command_body (self : WhenChanged) (w : World)
    (thefile : string) : Result :=
  let new_command := map (λ item, replace "%f" thefile item) (command self) in
  let self := set_envvar "file" thefile self in
  let c := {| args := new_command;
              shell := (length new_command =? 1)%nat;
              env := process_env self;
              stdout_devnull := quiet_mode self |} in
  match subprocess_call c w with
  | None => raises OSError self w [c]
  | Some w' =>
      let self := with_last_run (clock w') self in
      match get_envvar "event" self with
      | inl e => raises e self w' [c]
      | inr _ => returns self w' [c]
      end
  end.

(** [WhenChanged.run_command] *)
Definition run_command (self : WhenChanged) (w : World) (thefile : string)
  : Result :=
  if run_once self then
    if negb (path_exists w thefile) then returns self w []
    else
      match getmtime w thefile with
      | None => raises OSError self w []
      | Some mtime =>
          if mtime <? last_run self then returns self w []
          else run_command_body self w thefile
      end
  else run_command_body self w thefile.

(** [WhenChanged.on_change]; [None] when [is_interested] is still
    looping after [fuel] iterations. *)
Definition on_change (fuel : nat) (self : WhenChanged) (w : World)
    (path : string) : option Result :=
  b ← is_interested fuel self path;
  Some (if b : bool then run_command self w path else returns self w []).

(** [WhenChanged.on_created] *)
Definition on_created (fuel : nat) (self : WhenChanged) (w : World)
    (event : Event) : option Result :=
  if bool_decide (class_name (observer self) = "InotifyObserver")
  then Some (returns self w [])
  else if negb (is_directory event)
  then on_change fuel (set_envvar "event" "file_created" self) w
         (src_path event)
  else Some (returns self w []).

(** [WhenChanged.on_modified] *)
Definition on_modified (fuel : nat) (self : WhenChanged) (w : World)
    (event : Event) : option Result :=
  if negb (is_directory event)
  then on_change fuel (set_envvar "event" "file_modified" self) w
         (src_path event)
  else Some (returns self w []).

(** [WhenChanged.on_moved] *)
Definition on_moved (fuel : nat) (self : WhenChanged) (w : World)
    (event : Event) : option Result :=
  if negb (is_directory event)
  then on_change fuel (set_envvar "event" "file_moved" self) w
         (dest_path event)
  else Some (returns self w []).

(** [WhenChanged.on_deleted] *)
Definition on_deleted (fuel : nat) (self : WhenChanged) (w : World)
    (event : Event) : option Result :=
  if negb (is_directory event)
  then on_change fuel (set_envvar "event" "file_deleted" self) w
         (src_path event)
  else Some (returns self w []).

(** The observer's dispatch of an event to its handler. *)
Definition dispatch (h : Handler) :=
  match h with
  | OnCreated => on_created
  | OnModified => on_modified
  | OnMoved => on_moved
  | OnDeleted => on_deleted
  end.

(** [WhenChanged.run] up to and including [self.observer.start()]; the
    wait for [KeyboardInterrupt] that follows is not part of the
    embedding.  An exception of the initial [run_command] leaves [run]
    before the observer is started. *)
Definition run (self : WhenChanged) (w : World) : Result :=
  let r :=
    if run_at_start self then run_command self w "/dev/null"
    else returns self w [] in
  match raised r with
  | Some _ => r
  | None =>
      let o := observer (self_after r) in
      returns
        (with_observer
           {| class_name := class_name o; watches := watches o;
              started := true |} (self_after r))
        (world_after r) (calls r)
  end.

End Runner.

(** ** Vocabulary of the properties *)

(** The run gate in the specification's words: with run-once off every
    event runs the command; with run-once on a trigger path that no longer
    exists, or whose modification time is strictly earlier than the last
    run, does not. *)
Definition should_run (w : World) (triggerPath : string) (runOnce : bool)
    (lastRunTimestamp : Z) : bool :=
  if negb runOnce then true
  else if negb (path_exists w triggerPath) then false
  else
    match getmtime w triggerPath with
    | Some mtime => negb (mtime <? lastRunTimestamp)
    | None => false
    end.

Definition placeholder : string := "%f".

(** [s] contains the placeholder somewhere. *)
Definition has_placeholder (s : string) : Prop :=
  ∃ pre post, s = pre +:+ placeholder +:+ post.

(** [token'] is [token] with every occurrence of the placeholder replaced
    by [thefile]: [token] is cut at its placeholders into pieces that
    contain none, and [token'] is the same pieces joined by [thefile]. *)
Definition substituted (thefile token token' : string) : Prop :=
  ∃ pieces : list string,
    Forall (λ p, ¬ has_placeholder p) pieces ∧
    token = String.concat placeholder pieces ∧
    token' = String.concat thefile pieces.

(** The two event-context variables. *)
Definition event_context_keys : list string :=
  [envvar_key "event"; envvar_key "file"].

(** [self'] differs from [self] at most in [last_run] and in the two
    event-context entries of [process_env]. *)
Definition run_frame (self self' : WhenChanged) : Prop :=
  files self' = files self ∧
  paths self' = paths self ∧
  command self' = command self ∧
  recursive self' = recursive self ∧
  run_once self' = run_once self ∧
  run_at_start self' = run_at_start self ∧
  verbose_mode self' = verbose_mode self ∧
  quiet_mode self' = quiet_mode self ∧
  observer self' = observer self ∧
  ∀ k, k ∉ event_context_keys → process_env self' !! k = process_env self !! k.

(** [is_interested] returns [b]: the loop ends within some number of
    iterations.  It diverges when no number of iterations is enough. *)
Definition is_interested_returns (self : WhenChanged) (path : string)
    (b : bool) : Prop :=
  ∃ fuel, is_interested fuel self path = Some b.

Definition is_interested_diverges (self : WhenChanged) (path : string)
  : Prop :=
  ∀ fuel, is_interested fuel self path = None.

(** After a method call that started from [self] and [w]: when a child
    was called and has returned, [last_run] is the clock of the system the
    child left behind, which is also the system the method leaves; when no
    child was called, or the call raised, [last_run] is what it was. *)
Definition last_run_at_completion
    (subprocess_call : Call → World → option World)
    (self : WhenChanged) (w : World) (r : Result) : Prop :=
  match calls r with
  | [] => last_run (self_after r) = last_run self ∧ world_after r = w
  | [c] =>
      match subprocess_call c w with
      | Some w' => last_run (self_after r) = clock w' ∧ world_after r = w'
      | None => last_run (self_after r) = last_run self ∧ world_after r = w
      end
  | _ => False
  end.

(** ** Sample systems *)

Module Sample.

Definition dir (t : Z) : option Stat :=
  Some {| st_mtime := t; st_isdir := true |}.
Definition file (t : Z) : option Stat :=
  Some {| st_mtime := t; st_isdir := false |}.

(** A POSIX system with a project directory. *)
Definition posix : World :=
  {| stat := λ p,
       if bool_decide (p = "/proj") then dir 100
       else if bool_decide (p = "/proj/a.txt") then file 200
       else if bool_decide (p = "/proj/old.txt") then file 20
       else if bool_decide (p = "/proj/.git") then dir 100
       else if bool_decide (p = "/dev/null") then file 50
       else None;
     realpath := λ p, if bool_decide (p = ".") then "/proj" else p;
     environ := {[ "HOME" := "/root" ]};
     clock := 1000;
     observer_class := "KqueueObserver" |}.

(** The same system where [/dev/null] is not a path. *)
Definition no_dev_null : World :=
  {| stat := λ p, if bool_decide (p = "/dev/null") then None else stat posix p;
     realpath := realpath posix;
     environ := environ posix;
     clock := clock posix;
     observer_class := observer_class posix |}.

(** A child that takes seven time units and touches nothing. *)
Definition child (c : Call) (w : World) : option World :=
  Some {| stat := stat w; realpath := realpath w; environ := environ w;
          clock := clock w + 7; observer_class := observer_class w |}.

(** A command that cannot be started. *)
Definition no_child (c : Call) (w : World) : option World := None.

(** [WhenChanged(['.'], ['echo %f'], recursive=r, ...)] *)
Definition watcher (recursive run_once run_at_start : bool) : WhenChanged :=
  init posix ["."] ["echo %f"] recursive run_once run_at_start 3 false.

Definition modified (path : string) : Event :=
  {| src_path := path; dest_path := EmptyString; is_directory := false |}.

End Sample.

(** ** The handlers' event vocabulary *)

(** The value a handler stores in [WHEN_CHANGED_EVENT]. *)
Definition event_kind (h : Handler) : string :=
  match h with
  | OnCreated => "file_created"
  | OnModified => "file_modified"
  | OnMoved => "file_moved"
  | OnDeleted => "file_deleted"
  end.

(** The path a handler passes to [on_change]: the destination of a move,
    the source of every other event. *)
Definition event_path (h : Handler) (event : Event) : string :=
  match h with
  | OnMoved => dest_path event
  | _ => src_path event
  end.

(** A string of ASCII characters: there a byte is a character, and
    [str.upper] and the iteration over a string are what [upper] and
    [chars] compute. *)
Definition is_ascii (s : string) : Prop :=
  Forall (λ c, (nat_of_ascii c < 128)%nat) (list_ascii_of_string s).

#[global] Instance Watch_eq_dec : EqDecision Watch.
Proof. solve_decision. Defined.

(** ** The registration loop *)

(** One step of [for f in self.files: paths[os.path.realpath(f)] = f] in
    [__init__]. *)
Definition add_file (w : World) (paths : gmap string string) (f : string)
  : gmap string string :=
  <[realpath w f := f]> paths.

(** ** [main] *)

(** [parsed_args.folders_to_watch]: the default, the list [['.']], when
    the option is absent; the string given on the command line when it is
    present (the option is declared without [nargs] or [type]). *)
Inductive FoldersArg : Type :=
| FoldersDefault
| FoldersGiven (s : string).

(** What [for f in s] yields for a string [s] of ASCII characters: its
    characters, each as a string of length one. *)
Fixpoint chars (s : string) : list string :=
  match s with
  | EmptyString => []
  | String c t => String c EmptyString :: chars t
  end.

(** What [for f in self.files] yields in [__init__] for the value [main]
    passes as [files]. *)
Definition folders_to_watch (a : FoldersArg) : list string :=
  match a with
  | FoldersDefault => ["."]
  | FoldersGiven s => chars s
  end.

(** [f"cd {os.path.abspath('.')}; {command_to_run_under_watched_folder}"],
    [cwd] being [os.path.abspath('.')]. *)
Definition main_command (cwd command_to_run : string) : string :=
  "cd " +:+ cwd +:+ "; " +:+ command_to_run.

(** The watcher [main] constructs; [run_at_start], [verbose_mode] and
    [quiet_mode] take the defaults of [__init__]. *)
Definition main_watcher (w : World) (cwd : string) (folders : FoldersArg)
    (command_to_run : string) : WhenChanged :=
  init w (folders_to_watch folders) [main_command cwd command_to_run]
    true true false 3 false.

(** More sample systems. *)
Module Sample2.

(** The sample system on Linux, where [Observer] is the inotify
    observer, and with an event variable inherited from the caller. *)
Definition linux : World :=
  {| stat := stat Sample.posix;
     realpath := realpath Sample.posix;
     environ := <["WHEN_CHANGED_EVENT" := "inherited"]> (environ Sample.posix);
     clock := clock Sample.posix;
     observer_class := "InotifyObserver" |}.

(** A system where two spellings name the project directory. *)
Definition aliased : World :=
  {| stat := stat Sample.posix;
     realpath := λ p,
       if bool_decide (p = "link") then "/proj" else realpath Sample.posix p;
     environ := environ Sample.posix;
     clock := clock Sample.posix;
     observer_class := observer_class Sample.posix |}.


Definition created (path : string) : Event :=
  {| src_path := path; dest_path := EmptyString; is_directory := false |}.

Definition moved (src dest : string) : Event :=
  {| src_path := src; dest_path := dest; is_directory := false |}.

End Sample2.

(** * Properties *)

(** ** The ancestor walk *)

Section AncestorWalk.

Variable self : WhenChanged.

(** At the root the loop is not entered. *)
Lemma ancestor_walk_root fuel path :
  dirname path = path → ancestor_walk (S fuel) self path = Some false.
Proof.
  intros Hroot. simpl. rewrite bool_decide_eq_false_2; [done|].
  intros Hne. by apply Hne.
Qed.

(** A registered parent ends the loop in its first iteration. *)
Lemma ancestor_walk_hit fuel path :
  dirname path ≠ path → registered self (dirname path) = true →
  ancestor_walk (S fuel) self path = Some true.
Proof.
  intros Hne Hreg. simpl. rewrite bool_decide_eq_true_2; [|done].
  by rewrite Hreg.
Qed.

(** Below the root, with an unregistered parent, every iteration finds
    the state it started from. *)
Lemma ancestor_walk_stuck fuel path :
  dirname path ≠ path → registered self (dirname path) = false →
  ancestor_walk fuel self path = None.
Proof.
  intros Hne Hreg. induction fuel as [|fuel IH]; [done|].
  simpl. rewrite bool_decide_eq_true_2; [|done]. by rewrite Hreg.
Qed.

(** More fuel does not change a result. *)
Lemma ancestor_walk_mono fuel fuel' path b :
  ancestor_walk fuel self path = Some b → (fuel ≤ fuel')%nat →
  ancestor_walk fuel' self path = Some b.
Proof.
  revert fuel'. induction fuel as [|fuel IH]; intros fuel' Hres Hle; [done|].
  destruct fuel' as [|fuel']; [lia|].
  simpl in *. case_bool_decide; [|done].
  destruct (registered self (dirname path)); [done|].
  apply IH; [done|lia].
Qed.

End AncestorWalk.

Lemma is_interested_mono fuel fuel' self path b :
  is_interested fuel self path = Some b → (fuel ≤ fuel')%nat →
  is_interested fuel' self path = Some b.
Proof.
  unfold is_interested. intros Hres Hle.
  repeat (match goal with |- context [if ?c then _ else _] =>
            destruct c eqn:? end; try done).
  eauto using ancestor_walk_mono.
Qed.

(** A path cannot both return and diverge. *)
Lemma is_interested_diverges_not_returns self path b :
  is_interested_diverges self path → ¬ is_interested_returns self path b.
Proof. intros Hdiv [fuel Hret]. by rewrite Hdiv in Hret. Qed.

(** When the recursive walk is reached with a parent that is neither the
    root nor the child of a registered path, [is_interested] never
    returns. *)
Lemma is_interested_stuck self path :
  excluded path = false →
  registered self path = false →
  registered self (dirname path) = false →
  recursive self = true →
  dirname (dirname path) ≠ dirname path →
  registered self (dirname (dirname path)) = false →
  is_interested_diverges self path.
Proof.
  intros Hex Hp Hd Hrec Hne Hdd fuel. unfold is_interested.
  rewrite Hex, Hp, Hd, Hrec. by apply ancestor_walk_stuck.
Qed.

(** ** The event filter *)

(** C5. A path in which some pattern of [exclude_list] is found is never
    interesting: [is_interested] returns [False] at once, whatever the
    registered paths and the recursive flag are, also when the path itself
    is registered. *)
Theorem excluded_not_interested fuel self path i :
  i ∈ exclude_list → Re.findall_nonempty i path = true →
  is_interested fuel self path = Some false.
Proof.
  intros Hin Hfound. unfold is_interested.
  assert (excluded path = true) as ->; [|done].
  unfold excluded. apply existsb_exists. exists i.
  split; [by apply list_elem_of_In|done].
Qed.

(** The git directory itself is registered, and still excluded. *)
Lemma excluded_not_interested_witness :
  let self := init Sample.posix ["/proj/.git"] ["true"] true false false 3 false in
  registered self "/proj/.git" = true ∧
  is_interested 0 self "/proj/.git" = Some false.
Proof.
  split; [by vm_compute|].
  apply (excluded_not_interested 0 _ "/proj/.git"
           (Re.word ".git" (Re.Opt (Re.Chr "/")))).
  - unfold exclude_list. set_solver.
  - by vm_compute.
Defined.

(** The second membership test of [is_interested]. *)
Lemma is_interested_parent_registered fuel self path :
  excluded path = false → registered self (dirname path) = true →
  is_interested fuel self path = Some true.
Proof.
  intros Hex Hreg. unfold is_interested. rewrite Hex, Hreg.
  by destruct (registered self path).
Qed.

(** C6, as the code has it. For a registered directory [D] and a path [F]
    whose parent directory is [D], [is_interested F] returns [True] when
    no exclusion pattern matches [F]. *)
Theorem child_of_registered_interested fuel self D F :
  registered self D = true → dirname F = D → excluded F = false →
  is_interested fuel self F = Some true.
Proof.
  intros Hreg <- Hex. by apply is_interested_parent_registered.
Qed.

Lemma child_of_registered_interested_witness :
  is_interested 0 (Sample.watcher false false false) "/proj/a.txt" = Some true.
Proof.
  apply (child_of_registered_interested 0 _ "/proj" "/proj/a.txt");
    by vm_compute.
Defined.

(** C6 as stated fails: a Vim swap file directly inside the registered
    directory [/proj] is not interesting. *)
Lemma child_of_registered_excluded :
  let self := Sample.watcher false false false in
  registered self "/proj" = true ∧
  isdir Sample.posix "/proj" = true ∧
  dirname "/proj/.main.py.swp" = "/proj" ∧
  ∀ fuel, is_interested fuel self "/proj/.main.py.swp" = Some false.
Proof. repeat split; by vm_compute. Qed.

(** ** Parent directories *)

Section Dirname.

Lemma lstrip_while_suffix f l : ∃ pre, l = pre ++ lstrip_while f l.
Proof.
  induction l as [|c t [pre IH]]; [by exists []|].
  simpl. destruct (f c); [|by exists []].
  exists (c :: pre). simpl. by f_equal.
Qed.

Lemma rev_lstrip_while_prefix f l :
  ∃ rest, l = rev (lstrip_while f (rev l)) ++ rest.
Proof.
  destruct (lstrip_while_suffix f (rev l)) as [pre Hpre].
  exists (rev pre). rewrite <- rev_app_distr, <- Hpre. by rewrite rev_involutive.
Qed.

Lemma dirname_chars_prefix p : ∃ rest, p = dirname_chars p ++ rest.
Proof.
  unfold dirname_chars.
  destruct (rev_lstrip_while_prefix (λ c, negb (is_sep c)) p) as [r1 H1].
  fold (upto_last_sep p) in H1.
  destruct (negb (forallb is_sep (upto_last_sep p))); [|by exists r1].
  destruct (rev_lstrip_while_prefix is_sep (upto_last_sep p)) as [r2 H2].
  fold (rstrip_sep (upto_last_sep p)) in H2.
  exists (r2 ++ r1). rewrite app_assoc, <- H2. done.
Qed.

Lemma length_string_of_list_ascii l :
  String.length (string_of_list_ascii l) = length l.
Proof. induction l; simpl; congruence. Qed.

Lemma length_list_ascii_of_string s :
  length (list_ascii_of_string s) = String.length s.
Proof. induction s; simpl; congruence. Qed.

(** Taking the parent directory shortens every path but a fixed point of
    [dirname] (the root, the empty path). *)
Lemma dirname_shorter p :
  dirname p ≠ p → (String.length (dirname p) < String.length p)%nat.
Proof.
  intros Hne. unfold dirname in *.
  destruct (dirname_chars_prefix (list_ascii_of_string p)) as [rest Hrest].
  rewrite length_string_of_list_ascii.
  rewrite <- (length_list_ascii_of_string p).
  destruct rest as [|c rest].
  - exfalso. apply Hne. rewrite app_nil_r in Hrest.
    rewrite <- Hrest. apply string_of_list_ascii_of_string.
  - rewrite Hrest at 2. rewrite length_app. simpl. lia.
Qed.

Lemma iter_dirname_fixed k p : dirname p = p → iter_dirname k p = p.
Proof. intros Hfix. induction k as [|k IH]; simpl; [done|]. by rewrite Hfix. Qed.

(** The ancestor chain of a path is finite: after as many steps as the
    path has characters it has reached a fixed point of [dirname]. *)
Lemma ancestor_chain_finite n p :
  (String.length p ≤ n)%nat →
  dirname (iter_dirname n p) = iter_dirname n p.
Proof.
  revert p. induction n as [|n IH]; intros p Hlen.
  - destruct p; [done|simpl in Hlen; lia].
  - simpl. destruct (decide (dirname p = p)) as [Hfix|Hne].
    + rewrite Hfix. by rewrite iter_dirname_fixed.
    + apply IH. pose proof (dirname_shorter p Hne). lia.
Qed.

End Dirname.

(** ** Descendants of a registered directory *)

(** C1, as the code has it. Let [D] be a registered path and [P] a
    descendant of [D].  In recursive mode, when no exclusion pattern
    matches [P], [is_interested P] never returns [False], and it returns
    [True] when [P] is at most two levels below [D].  In non-recursive
    mode it returns [False] when [P] is beyond the immediate children of
    [D] and neither [P] nor its parent directory is registered.  Whether
    a result is returned for deeper descendants in recursive mode is not
    part of this statement. *)
Theorem descendant_interested self D P k :
  registered self D = true → descendant_at k D P →
  (recursive self = true → excluded P = false →
   (∀ fuel, is_interested fuel self P ≠ Some false) ∧
   ((k ≤ 2)%nat → ∀ fuel, is_interested (S fuel) self P = Some true)) ∧
  (recursive self = false → (2 ≤ k)%nat →
   registered self P = false → registered self (dirname P) = false →
   ∀ fuel, is_interested fuel self P = Some false).
Proof.
  intros Hreg [Hk Hanc]. split.
  - intros Hrec Hex. split.
    + intros fuel. unfold is_interested. rewrite Hex, Hrec.
      destruct (registered self P); [done|].
      destruct (registered self (dirname P)) eqn:Hparent; [done|].
      destruct (decide (dirname (dirname P) = dirname P)) as [Hroot|Hne].
      * destruct k as [|k]; [lia|]. simpl in Hanc.
        rewrite (iter_dirname_fixed _ _ Hroot) in Hanc. congruence.
      * destruct (registered self (dirname (dirname P))) eqn:Hgrand.
        -- destruct fuel as [|fuel]; [done|].
           by rewrite ancestor_walk_hit.
        -- by rewrite ancestor_walk_stuck.
    + intros Hle fuel.
      destruct k as [|[|[|k]]]; [lia| | |lia]; simpl in Hanc.
      * apply is_interested_parent_registered; [done|]. by rewrite Hanc.
      * unfold is_interested. rewrite Hex, Hrec.
        destruct (registered self P); [done|].
        destruct (registered self (dirname P)) eqn:Hparent; [done|].
        destruct (decide (dirname (dirname P) = dirname P)) as [Hroot|Hne].
        -- rewrite Hroot in Hanc. congruence.
        -- apply ancestor_walk_hit; [done|]. by rewrite Hanc.
  - intros Hrec _ HP Hparent fuel. unfold is_interested.
    rewrite HP, Hparent, Hrec. by destruct (excluded P).
Qed.

Lemma descendant_interested_witness :
  is_interested 1 (Sample.watcher true false false) "/proj/src/main.py"
    = Some true ∧
  is_interested 0 (Sample.watcher false false false) "/proj/src/main.py"
    = Some false.
Proof.
  assert (descendant_at 2 "/proj" "/proj/src/main.py") as Hdesc.
  { split; [lia|by vm_compute]. }
  split.
  - destruct (descendant_interested (Sample.watcher true false false)
                "/proj" "/proj/src/main.py" 2) as [Hrec _];
      [by vm_compute|exact Hdesc|].
    destruct Hrec as [_ Htrue]; [by vm_compute..|].
    apply (Htrue ltac:(lia) 0%nat).
  - destruct (descendant_interested (Sample.watcher false false false)
                "/proj" "/proj/src/main.py" 2) as [_ Hnonrec];
      [by vm_compute|exact Hdesc|].
    apply Hnonrec; [by vm_compute|lia|by vm_compute..].
Defined.

(** C1 as stated fails in recursive mode with the directory [/proj]
    registered: a descendant inside the git directory is not interesting,
    and for a descendant three levels down [is_interested] returns
    nothing. *)
Lemma descendant_not_interested :
  let self := Sample.watcher true false false in
  recursive self = true ∧
  registered self "/proj" = true ∧
  isdir Sample.posix "/proj" = true ∧
  (descendant_at 2 "/proj" "/proj/.git/config" ∧
   ∀ fuel, is_interested fuel self "/proj/.git/config" = Some false) ∧
  (descendant_at 3 "/proj" "/proj/src/pkg/mod.py" ∧
   ¬ is_interested_returns self "/proj/src/pkg/mod.py" true).
Proof.
  split_and!; try (by vm_compute); try (split; [lia|by vm_compute]).
  apply is_interested_diverges_not_returns.
  apply is_interested_stuck; by vm_compute.
Qed.

(** C2, at a path three levels below the registered directory of a
    recursive watcher: the path is not excluded, the ancestor chain of the
    path is finite, and yet [is_interested] returns for no number of
    iterations of its loop, neither [True] nor [False]. *)
Theorem is_interested_not_total :
  let self := Sample.watcher true false false in
  let path := "/proj/src/pkg/mod.py" in
  recursive self = true ∧
  registered self "/proj" = true ∧
  excluded path = false ∧
  iter_dirname 3 path = "/proj" ∧
  dirname (iter_dirname 4 path) = iter_dirname 4 path ∧
  is_interested_diverges self path ∧
  ∀ b, ¬ is_interested_returns self path b.
Proof.
  assert (is_interested_diverges (Sample.watcher true false false)
            "/proj/src/pkg/mod.py") as Hdiv.
  { apply is_interested_stuck; by vm_compute. }
  split_and!; [by vm_compute..|exact Hdiv|].
  intros b. by apply is_interested_diverges_not_returns.
Qed.

(** ** Registration *)

Lemma watches_foldl_schedule_path w l o :
  watches (foldl (schedule_path w) o l) =
  watches o ++
  map (λ p, if isdir w p
            then {| watch_path := p; watch_recursive := true |}
            else {| watch_path := dirname p; watch_recursive := false |}) l.
Proof.
  revert o. induction l as [|p l IH]; intros o; simpl.
  - by rewrite app_nil_r.
  - rewrite IH. unfold schedule_path, schedule.
    destruct (isdir w p); simpl; by rewrite <- app_assoc.
Qed.

Lemma registered_elem_of self p :
  registered self p = true ↔ p ∈ (map_to_list (paths self)).*1.
Proof.
  unfold registered. rewrite bool_decide_eq_true.
  rewrite list_elem_of_fmap. split.
  - intros [v Hv]. exists (p, v). split; [done|].
    by apply elem_of_map_to_list.
  - intros [[p' v] [-> Hin]]. exists v. by apply elem_of_map_to_list.
Qed.

(** C4, as the code has it. [__init__] schedules, for every registered
    path that is a directory, a recursive watch on it, whatever the
    recursive option is; for every registered path that is not a
    directory, a non-recursive watch on its parent directory; and nothing
    else. *)
Theorem init_watches w files command recursive run_once run_at_start
    verbose_mode quiet_mode :
  let self := init w files command recursive run_once run_at_start
                verbose_mode quiet_mode in
  (∀ p, registered self p = true → isdir w p = true →
        {| watch_path := p; watch_recursive := true |}
          ∈ watches (observer self)) ∧
  (∀ p, registered self p = true → isdir w p = false →
        {| watch_path := dirname p; watch_recursive := false |}
          ∈ watches (observer self)) ∧
  (∀ x, x ∈ watches (observer self) →
        ∃ p, registered self p = true ∧
             if isdir w p
             then x = {| watch_path := p; watch_recursive := true |}
             else x = {| watch_path := dirname p; watch_recursive := false |}).
Proof.
  intros self.
  assert (∀ x, x ∈ watches (observer self) ↔
            ∃ p, registered self p = true ∧
                 x = if isdir w p
                     then {| watch_path := p; watch_recursive := true |}
                     else {| watch_path := dirname p;
                             watch_recursive := false |}) as Hw.
  { intros x.
    assert (watches (observer self) =
              map (λ p, if isdir w p
                        then {| watch_path := p; watch_recursive := true |}
                        else {| watch_path := dirname p;
                                watch_recursive := false |})
                (map_to_list (paths self)).*1) as ->.
    { unfold self, init. cbn [observer paths].
      by rewrite watches_foldl_schedule_path. }
    rewrite list_elem_of_In, in_map_iff. split.
    - intros [p [<- Hin]]. exists p. split; [|done].
      apply (registered_elem_of self p). by apply list_elem_of_In.
    - intros [p [Hreg ->]]. exists p. split; [done|].
      apply list_elem_of_In. by apply (registered_elem_of self p). }
  split_and!.
  - intros p Hreg Hdir. apply Hw. exists p. by rewrite Hdir.
  - intros p Hreg Hdir. apply Hw. exists p. by rewrite Hdir.
  - intros x [p [Hreg ->]]%Hw. exists p. split; [done|].
    by destruct (isdir w p).
Qed.

Lemma init_watches_witness :
  {| watch_path := "/proj"; watch_recursive := true |}
    ∈ watches (observer (Sample.watcher true false false)) ∧
  {| watch_path := "/proj"; watch_recursive := false |}
    ∈ watches (observer
        (init Sample.posix ["/proj/a.txt"] ["make"] true false false 3 false)).
Proof.
  split.
  - apply (init_watches Sample.posix ["."] ["echo %f"] true false false 3 false);
      by vm_compute.
  - apply (proj1 (proj2 (init_watches Sample.posix ["/proj/a.txt"] ["make"]
                           true false false 3 false)) "/proj/a.txt");
      by vm_compute.
Defined.

(** C4 as stated fails: with the recursive option off, the watch
    scheduled on the registered directory [/proj] is still recursive. *)
Lemma init_watch_recursive_without_option :
  let self := Sample.watcher false false false in
  recursive self = false ∧
  registered self "/proj" = true ∧
  isdir Sample.posix "/proj" = true ∧
  watches (observer self) =
    [{| watch_path := "/proj"; watch_recursive := true |}].
Proof. split_and!; by vm_compute. Qed.

(** ** The run gate *)

Lemma path_exists_getmtime w p :
  path_exists w p = true → ∃ mtime, getmtime w p = Some mtime.
Proof.
  unfold path_exists, getmtime. destruct (stat w p) as [st|]; [|done].
  intros _. by exists (st_mtime st).
Qed.

(** The gate is open with run-once off. *)
Lemma should_run_always w thefile t : should_run w thefile false t = true.
Proof. done. Qed.

(** The gate is closed for a path that no longer exists. *)
Lemma should_run_missing w thefile t :
  path_exists w thefile = false → should_run w thefile true t = false.
Proof. unfold should_run. by intros ->. Qed.

(** For an existing path the gate compares modification time and last
    run. *)
Lemma should_run_mtime w thefile t mtime :
  getmtime w thefile = Some mtime →
  should_run w thefile true t = negb (mtime <? t).
Proof.
  unfold should_run, path_exists, getmtime.
  destruct (stat w thefile) as [st|]; [|done]. simpl. by intros [= ->].
Qed.

Lemma calls_run_command_body child self w thefile :
  ∃ c, calls (run_command_body child self w thefile) = [c].
Proof.
  unfold run_command_body.
  match goal with |- context [child ?c w] => exists c; destruct (child c w) end;
    [|done].
  by match goal with |- context [get_envvar ?n ?s] =>
       destruct (get_envvar n s) end.
Qed.

(** [run_command] is its body behind the run gate. *)
Lemma run_command_should_run child self w thefile :
  run_command child self w thefile =
    if should_run w thefile (run_once self) (last_run self)
    then run_command_body child self w thefile
    else returns self w [].
Proof.
  unfold run_command, should_run.
  destruct (run_once self); [|done]. simpl.
  destruct (path_exists w thefile) eqn:Hex; [|done]. simpl.
  destruct (path_exists_getmtime _ _ Hex) as [mtime ->].
  by destruct (mtime <? last_run self).
Qed.

(** C3. [run_command] passes the run gate of the specification: with
    run-once off it always goes on to call the command; with run-once on
    it returns at once, calling nothing and changing nothing, when the
    trigger path does not exist or was last modified strictly before the
    last run, and goes on to call the command otherwise. *)
Theorem run_command_gate child self w thefile :
  run_command child self w thefile =
    (if should_run w thefile (run_once self) (last_run self)
     then run_command_body child self w thefile
     else returns self w []) ∧
  (∃ c, calls (run_command_body child self w thefile) = [c]) ∧
  calls (returns self w []) = [] ∧
  should_run w thefile false (last_run self) = true ∧
  (path_exists w thefile = false →
   should_run w thefile true (last_run self) = false) ∧
  (∀ mtime, getmtime w thefile = Some mtime →
     (mtime < last_run self →
      should_run w thefile true (last_run self) = false) ∧
     (last_run self ≤ mtime →
      should_run w thefile true (last_run self) = true)).
Proof.
  split_and!.
  - apply run_command_should_run.
  - apply calls_run_command_body.
  - done.
  - done.
  - apply should_run_missing.
  - intros mtime Hm. rewrite (should_run_mtime _ _ _ _ Hm). split; intros Hlt.
    + by apply Z.ltb_lt in Hlt as ->.
    + by apply Z.ltb_ge in Hlt as ->.
Qed.

Lemma run_command_gate_witness :
  let self := with_last_run 150 (Sample.watcher false true false) in
  calls (run_command Sample.child self Sample.posix "/proj/old.txt") = [] ∧
  calls (run_command Sample.child self Sample.posix "/proj/gone.txt") = [] ∧
  length (calls (run_command Sample.child self Sample.posix "/proj/a.txt"))
    = 1%nat.
Proof.
  intros self.
  pose proof (run_command_gate Sample.child self Sample.posix "/proj/old.txt")
    as (-> & _ & _ & _ & _ & Hold).
  pose proof (run_command_gate Sample.child self Sample.posix "/proj/gone.txt")
    as (-> & _ & _ & _ & Hgone & _).
  pose proof (run_command_gate Sample.child self Sample.posix "/proj/a.txt")
    as (-> & [c Hc] & _ & _ & _ & Hnew).
  change (run_once self) with true.
  split_and!.
  - destruct (Hold 20) as [Hstale _]; [by vm_compute|].
    rewrite Hstale; [done|by vm_compute].
  - rewrite Hgone; [done|by vm_compute].
  - destruct (Hnew 200) as [_ Hfresh]; [by vm_compute|].
    rewrite Hfresh; [by rewrite Hc|by vm_compute].
Defined.

(** ** Placeholder substitution *)

Section Substitution.

Lemma append_cons c s t : String c s +:+ t = String c (s +:+ t).
Proof. done. Qed.

Lemma append_empty_r s : s +:+ EmptyString = s.
Proof. induction s as [|c s IH]; [done|]. by rewrite append_cons, IH. Qed.

Lemma prefix_placeholder s :
  String.prefix placeholder s = true ↔ ∃ t, s = String "%" (String "f" t).
Proof.
  split.
  - unfold placeholder.
    destruct s as [|a [|b t]]; cbn [String.prefix]; try done.
    + by destruct (ascii_dec "%"%char a).
    + destruct (ascii_dec "%"%char a) as [<-|]; [|done].
      destruct (ascii_dec "f"%char b) as [<-|]; [|done]. by exists t.
  - intros [t ->]. by destruct t.
Qed.

Lemma no_placeholder_empty : ¬ has_placeholder EmptyString.
Proof. intros [[|a pre] [post Heq]]; discriminate. Qed.

(** An occurrence of the placeholder in a non-empty string is at its
    start or in its tail. *)
Lemma has_placeholder_cons c s :
  has_placeholder (String c s) →
  String.prefix placeholder (String c s) = true ∨ has_placeholder s.
Proof.
  intros [[|a pre] [post Heq]].
  - left. apply prefix_placeholder. exists post. exact Heq.
  - right. exists pre, post. rewrite append_cons in Heq. congruence.
Qed.

Lemma concat_cons_append sep p rest :
  ∃ tl, String.concat sep (p :: rest) = p +:+ tl.
Proof.
  destruct rest as [|q rest].
  - exists EmptyString. simpl. by rewrite append_empty_r.
  - by exists (sep +:+ String.concat sep (q :: rest)).
Qed.

Lemma concat_cons_char sep c p rest :
  String.concat sep (String c p :: rest) = String c (String.concat sep (p :: rest)).
Proof. by destruct rest. Qed.

(** The scan of [replace] cuts the string at every placeholder. *)
Lemma replace_from_pieces thefile n s :
  (String.length s ≤ n)%nat →
  ∃ pieces : list string,
    pieces ≠ [] ∧
    Forall (λ p, ¬ has_placeholder p) pieces ∧
    s = String.concat placeholder pieces ∧
    replace_from placeholder thefile 0 s = String.concat thefile pieces.
Proof.
  revert s. induction n as [|n IH]; intros s Hlen.
  { destruct s; [|simpl in Hlen; lia].
    exists [EmptyString]. split_and!; try done.
    constructor; [apply no_placeholder_empty|constructor]. }
  destruct s as [|c t].
  { exists [EmptyString]. split_and!; try done.
    constructor; [apply no_placeholder_empty|constructor]. }
  cbn [replace_from].
  destruct (String.prefix placeholder (String c t)) eqn:Hpre.
  - apply prefix_placeholder in Hpre as [t' [= -> ->]].
    destruct (IH t') as (pieces & Hne & Hall & Hs & Hr).
    { simpl in Hlen. lia. }
    exists (EmptyString :: pieces). split_and!; [done| | |].
    + constructor; [apply no_placeholder_empty|done].
    + destruct pieces as [|q pieces]; [done|].
      rewrite Hs. reflexivity.
    + change (String.length placeholder - 1)%nat with 1%nat.
      cbn [replace_from]. rewrite Hr.
      destruct pieces as [|q pieces]; [done|]. reflexivity.
  - destruct (IH t) as (pieces & Hne & Hall & Hs & Hr).
    { simpl in Hlen. lia. }
    destruct pieces as [|q pieces]; [done|].
    exists (String c q :: pieces). split_and!; [done| | |].
    + apply Forall_cons in Hall as [Hq Hall].
      constructor; [|done].
      intros [Hstart|Hin]%has_placeholder_cons; [|done].
      apply prefix_placeholder in Hstart as [q' [= -> ->]].
      destruct (concat_cons_append placeholder (String "f" q') pieces)
        as [tl Htl].
      rewrite Htl, append_cons in Hs. subst t.
      rewrite (proj2 (prefix_placeholder _)) in Hpre; [done|by eexists].
    + rewrite concat_cons_char. by rewrite <- Hs.
    + rewrite concat_cons_char. by rewrite <- Hr.
Qed.

(** [item.replace('%f', thefile)] replaces every occurrence of the
    placeholder in [item]. *)
Lemma replace_substituted thefile item :
  substituted thefile item (replace placeholder thefile item).
Proof.
  destruct (replace_from_pieces thefile (String.length item) item)
    as (pieces & _ & Hall & Hs & Hr); [done|].
  by exists pieces.
Qed.

End Substitution.

(** C7. When the run gate is open, [run_command] makes one call.  Its
    argument list has one token per token of the command template, each
    being the template token with every occurrence of [%f] replaced by
    the trigger path; the call goes through a shell exactly when the
    argument list has one token, so a list of more than one token is
    executed directly. *)
Theorem run_command_call child self w thefile :
  should_run w thefile (run_once self) (last_run self) = true →
  ∃ c, calls (run_command child self w thefile) = [c] ∧
       Forall2 (substituted thefile) (command self) (args c) ∧
       (shell c = true ↔ length (args c) = 1%nat) ∧
       ((1 < length (args c))%nat → shell c = false).
Proof.
  intros Hgate.
  rewrite run_command_should_run, Hgate. unfold run_command_body.
  match goal with |- context [child ?c w] => exists c end.
  split_and!.
  - destruct (child _ w); [|done].
    by match goal with |- context [get_envvar ?n ?s] =>
         destruct (get_envvar n s) end.
  - cbn [args]. induction (command self) as [|item items IH]; simpl.
    + constructor.
    + constructor; [apply replace_substituted|done].
  - cbn [args shell]. apply Nat.eqb_eq.
  - cbn [args shell]. intros Hlen. apply Nat.eqb_neq. lia.
Qed.

Lemma run_command_call_witness :
  ∃ c, calls (run_command Sample.child
                (init Sample.posix ["."] ["cp"; "%f"; "%f.bak"] false true
                   false 3 false)
                Sample.posix "/proj/a.txt") = [c] ∧
       args c = ["cp"; "/proj/a.txt"; "/proj/a.txt.bak"] ∧
       shell c = false.
Proof.
  destruct (run_command_call Sample.child
              (init Sample.posix ["."] ["cp"; "%f"; "%f.bak"] false true
                 false 3 false)
              Sample.posix "/proj/a.txt") as (c & Hc & _ & _ & Hsh);
    [by vm_compute|].
  exists c. split; [done|].
  assert (args c = ["cp"; "/proj/a.txt"; "/proj/a.txt.bak"]) as Hargs.
  { revert Hc. vm_compute. by intros [= <-]. }
  split; [done|]. apply Hsh. rewrite Hargs. simpl. lia.
Defined.

(** ** What a run changes *)

Section Frame.

Variable subprocess_call : Call → World → option World.

Lemma run_frame_refl self : run_frame self self.
Proof. by repeat split. Qed.

Lemma run_frame_trans self1 self2 self3 :
  run_frame self1 self2 → run_frame self2 self3 → run_frame self1 self3.
Proof.
  unfold run_frame. intros H12 H23. destruct_and!.
  split_and!; try congruence.
  intros k Hk.
  match goal with
  | H1 : ∀ k, _ → process_env self2 !! k = _,
    H2 : ∀ k, _ → process_env self3 !! k = _ |- _ =>
      by rewrite (H2 k Hk), (H1 k Hk)
  end.
Qed.

Lemma set_envvar_frame name value self :
  envvar_key name ∈ event_context_keys →
  run_frame self (set_envvar name value self).
Proof.
  intros Hkey. unfold run_frame. split_and!; try done.
  intros k Hk. unfold set_envvar, with_process_env. cbn [process_env].
  apply lookup_insert_ne. intros Heq. apply Hk. by rewrite <- Heq.
Qed.

Lemma with_last_run_frame t self : run_frame self (with_last_run t self).
Proof. by repeat split. Qed.

Lemma run_command_body_frame self w thefile :
  run_frame self (self_after (run_command_body subprocess_call self w thefile)).
Proof.
  assert (run_frame self (set_envvar "file" thefile self)) as Hfile.
  { apply set_envvar_frame. unfold event_context_keys. set_solver. }
  unfold run_command_body.
  destruct (subprocess_call _ w) as [w'|]; [|done].
  match goal with |- context [get_envvar ?n ?s] =>
    destruct (get_envvar n s) end;
    (eapply run_frame_trans; [exact Hfile|apply with_last_run_frame]).
Qed.

Lemma run_command_body_completion self w thefile :
  last_run_at_completion subprocess_call self w
    (run_command_body subprocess_call self w thefile).
Proof.
  unfold last_run_at_completion, run_command_body.
  destruct (subprocess_call _ w) as [w'|] eqn:Hcall.
  - match goal with |- context [get_envvar ?n ?s] =>
      destruct (get_envvar n s) end;
      cbn [calls raises returns]; by rewrite Hcall.
  - cbn [calls raises returns]. by rewrite Hcall.
Qed.

Lemma run_command_frame self w thefile :
  let r := run_command subprocess_call self w thefile in
  run_frame self (self_after r) ∧
  last_run_at_completion subprocess_call self w r.
Proof.
  cbn zeta.
  rewrite run_command_should_run.
  destruct (should_run _ _ _ _).
  - split; [apply run_command_body_frame|apply run_command_body_completion].
  - split; [apply run_frame_refl|done].
Qed.

Lemma on_change_frame name value fuel self w path r :
  envvar_key name ∈ event_context_keys →
  on_change subprocess_call fuel (set_envvar name value self) w path = Some r →
  run_frame self (self_after r) ∧
  last_run_at_completion subprocess_call self w r.
Proof.
  intros Hkey. unfold on_change.
  destruct (is_interested _ _ _) as [[]|]; simpl; intros [= <-].
  - destruct (run_command_frame (set_envvar name value self) w path)
      as [Hframe Hcompl].
    split; [|done].
    eapply run_frame_trans; [by apply set_envvar_frame|done].
  - split; [by apply set_envvar_frame|done].
Qed.

End Frame.

(** The child of the sample system starts at time 1000 and returns at
    1007; the handler leaves 1007 in [last_run], the event kind and the
    file in the environment, and the other entries alone. *)
Example modified_event_run :
  let self := Sample.watcher false false false in
  ∃ r, dispatch Sample.child OnModified 0 self Sample.posix
         (Sample.modified "/proj/a.txt") = Some r ∧
       clock Sample.posix = 1000 ∧
       last_run (self_after r) = 1007 ∧
       args <$> calls r = [["echo /proj/a.txt"]] ∧
       shell <$> calls r = [true] ∧
       map_to_list (process_env (self_after r)) =
         [("WHEN_CHANGED_EVENT", "file_modified");
          ("WHEN_CHANGED_FILE", "/proj/a.txt"); ("HOME", "/root")].
Proof. eexists. split; [by vm_compute|]. split_and!; by vm_compute. Qed.

(** ** Directory events *)

(** C9. An event whose [is_directory] flag is set runs no command and
    changes nothing: each of the four handlers returns at once, leaving
    the watcher and the system as they were. *)
Theorem directory_event_ignored child h fuel self w event :
  is_directory event = true →
  dispatch child h fuel self w event = Some (returns self w []).
Proof.
  intros Hdir.
  destruct h; cbn [dispatch];
    unfold on_created, on_modified, on_moved, on_deleted;
    rewrite Hdir; cbn [negb]; [by case_bool_decide|done..].
Qed.

Lemma directory_event_ignored_witness :
  dispatch Sample.child OnModified 0 (Sample.watcher true false false)
    Sample.posix
    {| src_path := "/proj/src"; dest_path := EmptyString; is_directory := true |}
  = Some (returns (Sample.watcher true false false) Sample.posix []).
Proof. by apply directory_event_ignored. Defined.

(** ** The run at start *)

(** C10, as the code has it. Let [run] be called with [run_at_start] set,
    no [WHEN_CHANGED_EVENT] entry in the environment, and the run gate
    open for [/dev/null].  Then the command is called once; when that
    call returns, [run_command] has set [last_run] and then raises
    [KeyError] from [get_envvar], which ends [run] before the observer is
    started; when the command cannot be started, the error of the call is
    what [run] raises. *)
Theorem run_at_start_key_error child self w :
  run_at_start self = true →
  process_env self !! envvar_key "event" = None →
  should_run w "/dev/null" (run_once self) (last_run self) = true →
  let r := run child self w in
  ∃ c, calls r = [c] ∧
       match child c w with
       | Some w' =>
           raised r = Some (KeyError "WHEN_CHANGED_EVENT") ∧
           world_after r = w' ∧
           last_run (self_after r) = clock w' ∧
           started (observer (self_after r)) = started (observer self)
       | None => raised r = Some OSError
       end.
Proof.
  intros Hstart Henv Hgate. cbn zeta. unfold run. rewrite Hstart.
  rewrite run_command_should_run, Hgate. unfold run_command_body.
  match goal with |- context [child ?c w] => exists c end.
  destruct (child _ w) as [w'|] eqn:Hcall.
  - assert (get_envvar "event"
              (with_last_run (clock w') (set_envvar "file" "/dev/null" self))
            = inl (KeyError "WHEN_CHANGED_EVENT")) as ->.
    { unfold get_envvar, set_envvar, with_last_run, with_process_env.
      cbn [process_env]. rewrite lookup_insert_ne; [|done].
      by rewrite Henv. }
    by split_and!.
  - by split_and!.
Qed.

Lemma run_at_start_key_error_witness :
  let r := run Sample.child (Sample.watcher false true true) Sample.posix in
  raised r = Some (KeyError "WHEN_CHANGED_EVENT") ∧
  last_run (self_after r) = 1007 ∧
  started (observer (self_after r)) = false.
Proof.
  destruct (run_at_start_key_error Sample.child
              (Sample.watcher false true true) Sample.posix)
    as (c & Hc & Hrun); [by vm_compute..|].
  assert (Sample.child c Sample.posix = Sample.child c Sample.posix) as Hchild
    by done.
  unfold Sample.child at 2 in Hchild. rewrite Hchild in Hrun.
  destruct Hrun as (Hraised & _ & Hlast & Hobs).
  cbn zeta. rewrite Hraised, Hlast, Hobs. split_and!; by vm_compute.
Defined.

(** C10 as stated fails.  With the command that cannot be started, [run]
    raises the error of the call and no [KeyError]; with run-once on and
    no [/dev/null] on the system, [run] calls nothing, raises nothing and
    starts the observer. *)
Lemma run_at_start_no_key_error :
  (let self := Sample.watcher false false true in
   let r := run Sample.no_child self Sample.posix in
   run_at_start self = true ∧
   process_env self !! "WHEN_CHANGED_EVENT" = None ∧
   raised r = Some OSError) ∧
  (let self :=
     init Sample.no_dev_null ["."] ["echo %f"] false true true 3 false in
   let r := run Sample.child self Sample.no_dev_null in
   run_at_start self = true ∧
   process_env self !! "WHEN_CHANGED_EVENT" = None ∧
   raised r = None ∧
   calls r = [] ∧
   started (observer (self_after r)) = true).
Proof. split; split_and!; by vm_compute. Qed.

(** * Further properties of the event filter *)

(** X1. Without the recursive option [is_interested] always returns, and
    it returns [True] exactly for a path that no exclusion pattern matches
    and that is registered or has a registered parent directory. *)
Theorem is_interested_non_recursive self path fuel :
  recursive self = false →
  is_interested fuel self path =
    Some (negb (excluded path) &&
          (registered self path || registered self (dirname path))).
Proof.
  intros Hrec. unfold is_interested. rewrite Hrec.
  destruct (excluded path); [done|].
  destruct (registered self path); [done|].
  by destruct (registered self (dirname path)).
Qed.

Lemma is_interested_non_recursive_witness :
  is_interested 0 (Sample.watcher false false false) "/proj/a.txt" = Some true ∧
  is_interested 0 (Sample.watcher false false false) "/tmp/a.txt" = Some false.
Proof.
  split.
  - rewrite is_interested_non_recursive; by vm_compute.
  - rewrite is_interested_non_recursive; by vm_compute.
Defined.

(** X2. With the recursive option the paths on which [is_interested]
    never returns are exactly those that no exclusion pattern matches,
    that are not registered, whose parent is neither registered nor a
    fixed point of [dirname], and whose parent's parent is not
    registered.  On every other path it returns within one iteration of
    its loop, [True] exactly when the path is not excluded and the path,
    its parent or its parent's parent is registered. *)
Theorem is_interested_recursive_cases self path :
  recursive self = true →
  if negb (excluded path) && negb (registered self path) &&
     negb (registered self (dirname path)) &&
     negb (bool_decide (dirname (dirname path) = dirname path)) &&
     negb (registered self (dirname (dirname path)))
  then is_interested_diverges self path
  else ∀ fuel,
         is_interested (S fuel) self path =
           Some (negb (excluded path) &&
                 (registered self path || registered self (dirname path) ||
                  registered self (dirname (dirname path)))).
Proof.
  intros Hrec.
  destruct (excluded path) eqn:Hex; cbn [negb andb].
  { intros fuel. unfold is_interested. by rewrite Hex. }
  destruct (registered self path) eqn:HP; cbn [negb andb orb].
  { intros fuel. unfold is_interested. by rewrite Hex, HP. }
  destruct (registered self (dirname path)) eqn:Hparent; cbn [negb andb orb].
  { intros fuel. unfold is_interested. by rewrite Hex, HP, Hparent. }
  case_bool_decide as Hroot; cbn [negb andb].
  { intros fuel. unfold is_interested. rewrite Hex, HP, Hparent, Hrec.
    rewrite ancestor_walk_root; [|done]. by rewrite Hroot, Hparent. }
  destruct (registered self (dirname (dirname path))) eqn:Hgrand;
    cbn [negb].
  - intros fuel. unfold is_interested. rewrite Hex, HP, Hparent, Hrec.
    by rewrite ancestor_walk_hit.
  - by apply is_interested_stuck.
Qed.

Lemma is_interested_recursive_cases_witness :
  is_interested_diverges (Sample.watcher true false false) "/tmp/x/y" ∧
  (∀ fuel, is_interested (S fuel) (Sample.watcher true false false)
             "/tmp" = Some false).
Proof.
  split.
  - apply (is_interested_recursive_cases
             (Sample.watcher true false false) "/tmp/x/y").
    by vm_compute.
  - intros fuel.
    pose proof (is_interested_recursive_cases
                  (Sample.watcher true false false) "/tmp") as Hcases.
    rewrite (Hcases ltac:(by vm_compute) fuel). by vm_compute.
Defined.

(** ** Paths built from a directory and a name *)

Section ChildPath.

Lemma list_ascii_of_string_app a b :
  list_ascii_of_string (a +:+ b) =
  list_ascii_of_string a ++ list_ascii_of_string b.
Proof.
  induction a as [|c a IH]; [done|].
  rewrite append_cons. simpl. by rewrite IH.
Qed.

Lemma lstrip_while_app_all f l1 l2 :
  Forall (λ c, f c = true) l1 →
  lstrip_while f (l1 ++ l2) = lstrip_while f l2.
Proof.
  induction 1 as [|c l1 Hc _ IH]; [done|]. simpl. by rewrite Hc.
Qed.

(** The parent of [d/name] is [d], for a [d] that does not end in a
    separator and a [name] without separators. *)
Lemma dirname_chars_child d c name :
  is_sep c = false → Forall (λ a, is_sep a = false) name →
  dirname_chars ((d ++ [c]) ++ sep :: name) = d ++ [c].
Proof.
  intros Hc Hname.
  assert (upto_last_sep ((d ++ [c]) ++ sep :: name) = (d ++ [c]) ++ [sep])
    as Hhead.
  { unfold upto_last_sep. rewrite rev_app_distr. simpl rev at 1.
    rewrite <- app_assoc. rewrite lstrip_while_app_all.
    - simpl. by rewrite rev_involutive.
    - apply Forall_rev. eapply Forall_impl; [exact Hname|].
      intros a Ha. simpl. by rewrite Ha. }
  unfold dirname_chars. rewrite Hhead.
  assert (forallb is_sep ((d ++ [c]) ++ [sep]) = false) as ->.
  { rewrite !forallb_app. simpl. rewrite Hc. by rewrite andb_false_r. }
  simpl. unfold rstrip_sep. rewrite rev_app_distr. simpl.
  rewrite rev_app_distr. simpl. rewrite Hc. simpl.
  by rewrite rev_involutive.
Qed.

Lemma dirname_child D0 c name :
  is_sep c = false →
  Forall (λ a, is_sep a = false) (list_ascii_of_string name) →
  dirname ((D0 +:+ String c EmptyString) +:+ "/" +:+ name) =
  D0 +:+ String c EmptyString.
Proof.
  intros Hc Hname. unfold dirname.
  rewrite !list_ascii_of_string_app. cbn [list_ascii_of_string].
  change (["/"%char] ++ list_ascii_of_string name)
    with (sep :: list_ascii_of_string name).
  rewrite (dirname_chars_child _ c _ Hc Hname).
  rewrite <- (string_of_list_ascii_of_string (D0 +:+ String c EmptyString)).
  by rewrite list_ascii_of_string_app.
Qed.

End ChildPath.

(** X3. A file directly inside a registered directory is interesting in
    either mode: for a registered path [D] that does not end in a
    separator and a name without separators, [is_interested] returns
    [True] on [D/name] unless an exclusion pattern matches it. *)
Theorem registered_child_interested self D0 c name fuel :
  let D := D0 +:+ String c EmptyString in
  registered self D = true →
  is_sep c = false →
  Forall (λ a, is_sep a = false) (list_ascii_of_string name) →
  excluded (D +:+ "/" +:+ name) = false →
  is_interested fuel self (D +:+ "/" +:+ name) = Some true.
Proof.
  intros D Hreg Hc Hname Hex.
  apply is_interested_parent_registered; [done|].
  unfold D. by rewrite dirname_child.
Qed.

Lemma registered_child_interested_witness :
  is_interested 0 (Sample.watcher true false false) "/proj/Makefile"
  = Some true.
Proof.
  apply (registered_child_interested (Sample.watcher true false false)
           "/pro" "j" "Makefile" 0).
  - by vm_compute.
  - by vm_compute.
  - repeat constructor.
  - by vm_compute.
Defined.

(** ** What the exclusion patterns match *)

Section ExclusionPatterns.

Lemma search_chars_app r pre s :
  Re.matches r s (λ _, true) = true → Re.search_chars r (pre ++ s) = true.
Proof.
  intros Hm. induction pre as [|c pre IH].
  - destruct s; simpl in *; by rewrite Hm.
  - simpl. rewrite IH. apply orb_true_r.
Qed.

Lemma matches_lit w r post k :
  Re.matches (Re.lit w r) (w ++ post) k = Re.matches r post k.
Proof.
  induction w as [|c w IH]; [done|].
  simpl. by rewrite Ascii.eqb_refl.
Qed.

Lemma matches_star_dot_cons c s k :
  Re.matches (Re.Star Re.Dot) (c :: s) k =
  k (c :: s) ||
  (negb (Ascii.eqb c Re.newline) && Re.matches (Re.Star Re.Dot) s k).
Proof.
  assert ((length s <? S (length s))%nat = true) as Hlt
    by (apply Nat.ltb_lt; lia).
  cbn [Re.matches length]. by rewrite Hlt.
Qed.

Lemma matches_star_cls_cons cs c s k :
  Re.matches (Re.Star (Re.Cls cs)) (c :: s) k =
  k (c :: s) ||
  (existsb (Ascii.eqb c) cs && Re.matches (Re.Star (Re.Cls cs)) s k).
Proof.
  assert ((length s <? S (length s))%nat = true) as Hlt
    by (apply Nat.ltb_lt; lia).
  cbn [Re.matches length]. by rewrite Hlt.
Qed.

Lemma matches_star_nil r k : Re.matches (Re.Star r) [] k = k [].
Proof. simpl. apply orb_false_r. Qed.

(** [.*] can pass over any run of characters without a newline. *)
Lemma matches_star_dot_skip mid rest k :
  Forall (λ c, Ascii.eqb c Re.newline = false) mid →
  k rest = true → Re.matches (Re.Star Re.Dot) (mid ++ rest) k = true.
Proof.
  intros Hmid Hk. induction Hmid as [|c mid Hc _ IH].
  - cbn [app]. destruct rest as [|c rest]; [by rewrite matches_star_nil|].
    rewrite matches_star_dot_cons. by rewrite Hk.
  - cbn [app]. rewrite matches_star_dot_cons, Hc, IH. apply orb_true_r.
Qed.

(** [[px]*] can pass over any run of the letters of the class. *)
Lemma matches_star_cls_skip cs run rest k :
  Forall (λ c, existsb (Ascii.eqb c) cs = true) run →
  k rest = true → Re.matches (Re.Star (Re.Cls cs)) (run ++ rest) k = true.
Proof.
  intros Hrun Hk. induction Hrun as [|c run Hc _ IH].
  - cbn [app]. destruct rest as [|c rest]; [by rewrite matches_star_nil|].
    rewrite matches_star_cls_cons. by rewrite Hk.
  - cbn [app]. rewrite matches_star_cls_cons, Hc, IH. apply orb_true_r.
Qed.

(** A pattern that starts with a literal character finds nothing in a
    string without that character. *)
Lemma search_chars_first_char c r s :
  Forall (λ a, a ≠ c) s →
  Re.search_chars (Re.Seq (Re.Chr c) r) s = false.
Proof.
  induction 1 as [|a s Ha _ IH]; [done|].
  cbn [Re.search_chars Re.matches]. rewrite IH.
  apply Ascii.eqb_neq in Ha. by rewrite Ha.
Qed.

(** A pattern made of [.] and a literal character finds nothing in a
    string without that character. *)
Lemma search_chars_second_char c r s :
  Forall (λ a, a ≠ c) s →
  Re.search_chars (Re.Seq Re.Dot (Re.Seq (Re.Chr c) r)) s = false.
Proof.
  induction 1 as [|a s Ha Hs IH]; [done|].
  cbn [Re.search_chars Re.matches]. rewrite IH.
  destruct Hs as [|b s Hb _]; [by rewrite andb_false_r|].
  apply Ascii.eqb_neq in Hb. rewrite Hb. by rewrite andb_false_r.
Qed.

Lemma excluded_by i path :
  i ∈ exclude_list → Re.findall_nonempty i path = true →
  excluded path = true.
Proof.
  intros Hin Hfound. unfold excluded. apply existsb_exists. exists i.
  split; [by apply list_elem_of_In|done].
Qed.

(** A pattern that matches at the start of [s] is found in [pre + s]. *)
Lemma findall_nonempty_app r pre s :
  Re.matches r (list_ascii_of_string s) (λ _, true) = true →
  Re.findall_nonempty r (pre +:+ s) = true.
Proof.
  intros Hm. unfold Re.findall_nonempty.
  rewrite list_ascii_of_string_app. by apply search_chars_app.
Qed.

End ExclusionPatterns.

(** X4. A path that contains [.git] anywhere, as a directory or inside a
    name such as [.gitignore], is never interesting. *)
Theorem git_path_not_interested fuel self pre post :
  is_interested fuel self (pre +:+ ".git" +:+ post) = Some false.
Proof.
  unfold is_interested.
  rewrite (excluded_by (Re.word ".git" (Re.Opt (Re.Chr "/")))); [done| |].
  - unfold exclude_list. set_solver.
  - apply findall_nonempty_app. rewrite list_ascii_of_string_app.
    unfold Re.word. rewrite matches_lit. simpl. apply orb_true_r.
Qed.

(** X5. A path that contains [__pycache__] anywhere is never
    interesting. *)
Theorem pycache_path_not_interested fuel self pre post :
  is_interested fuel self (pre +:+ "__pycache__" +:+ post) = Some false.
Proof.
  unfold is_interested.
  rewrite (excluded_by (Re.word "__pycache__" (Re.Opt (Re.Chr "/"))));
    [done| |].
  - unfold exclude_list. set_solver.
  - apply findall_nonempty_app. rewrite list_ascii_of_string_app.
    unfold Re.word. rewrite matches_lit. simpl. apply orb_true_r.
Qed.

(** X6. A path that ends in [4913] is never interesting, whatever comes
    before these four characters. *)
Theorem test_file_not_interested fuel self pre :
  is_interested fuel self (pre +:+ "4913") = Some false.
Proof.
  unfold is_interested.
  rewrite (excluded_by (Re.word "4913" Re.Eol)); [done| |].
  - unfold exclude_list. set_solver.
  - by apply findall_nonempty_app.
Qed.

(** X7. A path that ends in [~] after at least one more character, not a
    newline, is never interesting. *)
Theorem backup_file_not_interested fuel self pre c :
  Ascii.eqb c Re.newline = false →
  is_interested fuel self (pre +:+ String c "~") = Some false.
Proof.
  intros Hc. unfold is_interested.
  rewrite (excluded_by (Re.Seq Re.Dot (Re.Seq (Re.Chr "~") Re.Eol)));
    [done| |].
  - unfold exclude_list. set_solver.
  - apply findall_nonempty_app. simpl. by rewrite Hc.
Qed.

Lemma backup_file_not_interested_witness :
  is_interested 0 (Sample.watcher true false false) "/proj/notes.txt~"
  = Some false.
Proof.
  by apply (backup_file_not_interested 0 _ "/proj/notes.tx" "t").
Defined.

(** X8. A Vim swap file name is never interesting: a dot, any characters
    without a newline, then [.sw] and any run of the letters [p] and [x]
    at the end of the path. *)
Theorem swap_file_not_interested fuel self pre mid run :
  Forall (λ c, Ascii.eqb c Re.newline = false) (list_ascii_of_string mid) →
  Forall (λ c, c = "p"%char ∨ c = "x"%char) (list_ascii_of_string run) →
  is_interested fuel self (pre +:+ "." +:+ mid +:+ ".sw" +:+ run)
  = Some false.
Proof.
  intros Hmid Hrun. unfold is_interested.
  rewrite (excluded_by
             (Re.Seq (Re.Chr ".") (Re.Seq (Re.Star Re.Dot)
                (Re.word ".sw"
                   (Re.Seq (Re.Star (Re.Cls ["p"; "x"]%char)) Re.Eol)))));
    [done| |].
  - unfold exclude_list. set_solver.
  - apply findall_nonempty_app.
    rewrite !list_ascii_of_string_app.
    change (list_ascii_of_string ".") with ["."%char].
    cbn [app Re.matches]. rewrite Ascii.eqb_refl. cbn [andb].
    apply matches_star_dot_skip; [done|].
    unfold Re.word. rewrite matches_lit. cbn [Re.matches].
    rewrite <- (app_nil_r (list_ascii_of_string run)).
    apply matches_star_cls_skip; [|done].
    eapply Forall_impl; [exact Hrun|].
    by intros c [-> | ->].
Qed.

Lemma swap_file_not_interested_witness :
  is_interested 0 (Sample.watcher true false false) "/proj/.main.py.swp"
  = Some false.
Proof.
  apply (swap_file_not_interested 0 _ "/proj/" "main.py" "p").
  - repeat constructor.
  - repeat constructor; by left.
Defined.

(** X9. No exclusion pattern matches a path free of the characters [.],
    [~], [4] and [_]: such a path is interesting as soon as it or its
    parent directory is registered. *)
Theorem plain_path_interested fuel self path :
  Forall (λ c, c ≠ "."%char ∧ c ≠ "~"%char ∧ c ≠ "4"%char ∧ c ≠ "_"%char)
    (list_ascii_of_string path) →
  registered self path = true ∨ registered self (dirname path) = true →
  is_interested fuel self path = Some true.
Proof.
  intros Hplain Hreg.
  assert (excluded path = false) as Hex.
  { unfold excluded, exclude_list, Re.findall_nonempty, Re.word.
    cbn [existsb list_ascii_of_string Re.lit].
    rewrite !search_chars_first_char, search_chars_second_char; [done|..];
      (eapply Forall_impl; [exact Hplain|]); by intros a (? & ? & ? & ?). }
  unfold is_interested. rewrite Hex.
  destruct Hreg as [-> | Hparent]; [done|].
  rewrite Hparent. by destruct (registered self path).
Qed.

Lemma plain_path_interested_witness :
  is_interested 0 (Sample.watcher false false false) "/proj/Makefile"
  = Some true.
Proof.
  apply plain_path_interested.
  - repeat constructor; done.
  - right. by vm_compute.
Defined.

(** * Further properties of the command runner *)

Section RunnerFacts.

Variable subprocess_call : Call → World → option World.

(** The call of [run_command_body], and what follows from its outcome. *)
Lemma run_command_body_cases self w thefile :
  let self1 := set_envvar "file" thefile self in
  let c := {| args := map (λ item, replace "%f" thefile item) (command self);
              shell := (length (map (λ item, replace "%f" thefile item)
                                  (command self)) =? 1)%nat;
              env := process_env self1;
              stdout_devnull := quiet_mode self |} in
  let r := run_command_body subprocess_call self w thefile in
  calls r = [c] ∧
  match subprocess_call c w with
  | None => r = raises OSError self1 w [c]
  | Some w' =>
      self_after r = with_last_run (clock w') self1 ∧ world_after r = w' ∧
      raised r =
        match process_env self !! envvar_key "event" with
        | Some _ => None
        | None => Some (KeyError (envvar_key "event"))
        end
  end.
Proof.
  cbn zeta. unfold run_command_body.
  change (quiet_mode (set_envvar "file" thefile self)) with (quiet_mode self).
  destruct (subprocess_call _ w) as [w'|]; [|done].
  unfold get_envvar.
  change (process_env (with_last_run (clock w') (set_envvar "file" thefile self))
            !! envvar_key "event")
    with (<[envvar_key "file" := thefile]> (process_env self)
            !! envvar_key "event").
  rewrite lookup_insert_ne; [|done].
  by destruct (process_env self !! envvar_key "event").
Qed.

Lemma is_interested_set_envvar fuel name value self path :
  is_interested fuel (set_envvar name value self) path =
  is_interested fuel self path.
Proof.
  assert (∀ n p, ancestor_walk n (set_envvar name value self) p =
                 ancestor_walk n self p) as Hwalk.
  { induction n as [|n IH]; intros p; [done|]. simpl. by rewrite IH. }
  unfold is_interested. by rewrite Hwalk.
Qed.

(** Every handler, on a file event it does not drop at once, stores the
    event kind and hands the event's path to [on_change]. *)
Lemma dispatch_file_event h fuel self w event :
  is_directory event = false →
  (h = OnCreated → class_name (observer self) ≠ "InotifyObserver") →
  dispatch subprocess_call h fuel self w event =
  on_change subprocess_call fuel (set_envvar "event" (event_kind h) self) w
    (event_path h event).
Proof.
  intros Hdir Hclass.
  destruct h; cbn [dispatch];
    unfold on_created, on_modified, on_moved, on_deleted;
    rewrite Hdir; cbn [negb]; [|done..].
  rewrite bool_decide_eq_false_2; [done|]. by apply Hclass.
Qed.

(** What a handler returns is what it found, or what [run_command] returns
    for the watcher with the event kind stored. *)
Lemma dispatch_cases h fuel self w event r :
  dispatch subprocess_call h fuel self w event = Some r →
  r = returns self w [] ∨
  r = returns (set_envvar "event" (event_kind h) self) w [] ∨
  r = run_command subprocess_call (set_envvar "event" (event_kind h) self) w
        (event_path h event).
Proof.
  destruct (is_directory event) eqn:Hdir.
  { destruct h; cbn [dispatch];
      unfold on_created, on_modified, on_moved, on_deleted;
      rewrite Hdir; cbn [negb]; try case_bool_decide;
      intros [= <-]; by left. }
  assert (on_change subprocess_call fuel
            (set_envvar "event" (event_kind h) self) w (event_path h event)
          = Some r → r = returns self w [] ∨
            r = returns (set_envvar "event" (event_kind h) self) w [] ∨
            r = run_command subprocess_call
                  (set_envvar "event" (event_kind h) self) w
                  (event_path h event)) as Hchange.
  { unfold on_change.
    destruct (is_interested _ _ _) as [[]|]; simpl; intros [= <-]; auto. }
  destruct (decide (class_name (observer self) = "InotifyObserver"))
    as [Hino|Hother]; destruct h;
    try (rewrite dispatch_file_event; [exact Hchange|done|done]).
  cbn [dispatch]. unfold on_created.
  rewrite bool_decide_eq_true_2; [|done]. intros [= <-]. by left.
Qed.

End RunnerFacts.

(** A run that passes the gate: the command is called once, the trigger
    path is stored, and [last_run] is read from the clock once the child
    has returned. *)
Lemma run_command_open_gate child self w thefile :
  should_run w thefile (run_once self) (last_run self) = true →
  let r := run_command child self w thefile in
  ∃ c, calls r = [c] ∧
       process_env (self_after r) =
         <[envvar_key "file" := thefile]> (process_env self) ∧
       match child c w with
       | Some w' => last_run (self_after r) = clock w' ∧ world_after r = w'
       | None => last_run (self_after r) = last_run self ∧ world_after r = w
       end.
Proof.
  intros Hgate. cbn zeta. rewrite run_command_should_run, Hgate.
  destruct (run_command_body_cases child self w thefile) as [Hc Hcases].
  eexists. split; [exact Hc|].
  destruct (child _ w) as [w'|].
  - destruct Hcases as (-> & -> & _). by split_and!.
  - rewrite Hcases. by split_and!.
Qed.

(** C8. A run of the command, whether [run_command] is called directly
    or through an event handler, leaves every attribute of the watcher as
    it was except [last_run] and the entries [WHEN_CHANGED_EVENT] and
    [WHEN_CHANGED_FILE] of [process_env].  A run that passes the gate does
    call the child process, once, and stores the trigger path (and, in a
    handler, the event kind) in these entries; when the child has
    returned, [last_run] is the time at which it returned, read from the
    clock after the call and not before it; when the child could not be
    started, [last_run] is what it was. *)
Theorem triggered_run_frame child self w :
  (∀ thefile,
     let r := run_command child self w thefile in
     run_frame self (self_after r) ∧
     last_run_at_completion child self w r ∧
     (should_run w thefile (run_once self) (last_run self) = true →
      ∃ c, calls r = [c] ∧
           process_env (self_after r) !! "WHEN_CHANGED_FILE" = Some thefile ∧
           match child c w with
           | Some w' =>
               last_run (self_after r) = clock w' ∧ world_after r = w'
           | None =>
               last_run (self_after r) = last_run self ∧ world_after r = w
           end)) ∧
  (∀ h fuel event r,
     dispatch child h fuel self w event = Some r →
     run_frame self (self_after r) ∧ last_run_at_completion child self w r) ∧
  (∀ h fuel event,
     is_directory event = false →
     (h = OnCreated → class_name (observer self) ≠ "InotifyObserver") →
     is_interested fuel self (event_path h event) = Some true →
     should_run w (event_path h event) (run_once self) (last_run self)
       = true →
     ∃ r c,
       dispatch child h fuel self w event = Some r ∧
       calls r = [c] ∧
       process_env (self_after r) !! "WHEN_CHANGED_EVENT"
         = Some (event_kind h) ∧
       process_env (self_after r) !! "WHEN_CHANGED_FILE"
         = Some (event_path h event) ∧
       match child c w with
       | Some w' => last_run (self_after r) = clock w' ∧ world_after r = w'
       | None => last_run (self_after r) = last_run self ∧ world_after r = w
       end).
Proof.
  split_and!.
  - intros thefile. cbn zeta.
    destruct (run_command_frame child self w thefile) as [Hframe Hcompl].
    split_and!; [done..|].
    intros Hgate.
    destruct (run_command_open_gate child self w thefile Hgate)
      as (c & Hc & Henv & Hlast).
    exists c. split_and!; [done| |done].
    rewrite Henv. apply lookup_insert_eq.
  - assert (∀ name, name = "event" → envvar_key name ∈ event_context_keys)
      as Hkey.
    { intros name ->. unfold event_context_keys. set_solver. }
    intros h fuel event r.
    destruct h; cbn [dispatch];
      unfold on_created, on_modified, on_moved, on_deleted;
      repeat case_bool_decide;
      destruct (is_directory event); cbn [negb];
      try (intros [= <-]; split; [apply run_frame_refl|done]);
      by apply on_change_frame, Hkey.
  - intros h fuel event Hdir Hclass Hint Hgate.
    rewrite dispatch_file_event; [|done..].
    unfold on_change. rewrite is_interested_set_envvar, Hint. cbn.
    destruct (run_command_open_gate child
                (set_envvar "event" (event_kind h) self) w
                (event_path h event) Hgate) as (c & Hc & Henv & Hlast).
    eexists _, c. split; [done|]. split_and!; [done| | |done].
    + rewrite Henv. rewrite lookup_insert_ne; [|done].
      apply lookup_insert_eq.
    + rewrite Henv. apply lookup_insert_eq.
Qed.

Lemma triggered_run_frame_witness :
  let self := Sample.watcher false false false in
  ∃ r, dispatch Sample.child OnModified 0 self Sample.posix
         (Sample.modified "/proj/a.txt") = Some r ∧
       length (calls r) = 1%nat ∧
       run_frame self (self_after r) ∧
       clock Sample.posix = 1000 ∧
       last_run (self_after r) = 1007.
Proof.
  intros self.
  destruct (triggered_run_frame Sample.child self Sample.posix)
    as (_ & Hframe & Hrun).
  destruct (Hrun OnModified 0%nat (Sample.modified "/proj/a.txt"))
    as (r & c & Hr & Hc & _ & _ & Hlast);
    [reflexivity|intros [=]|by vm_compute|by vm_compute|].
  exists r. split; [done|]. split; [by rewrite Hc|].
  split; [by apply (Hframe OnModified 0%nat (Sample.modified "/proj/a.txt"))|].
  split; [reflexivity|].
  unfold Sample.child in Hlast. destruct Hlast as [-> _]. by vm_compute.
Defined.

(** X10. The child process of a run sees the environment of the watcher
    with [WHEN_CHANGED_FILE] set to the trigger path, and its standard
    output goes to the null device exactly in quiet mode. *)
Theorem run_command_call_env child self w thefile :
  should_run w thefile (run_once self) (last_run self) = true →
  ∃ c, calls (run_command child self w thefile) = [c] ∧
       env c = <["WHEN_CHANGED_FILE" := thefile]> (process_env self) ∧
       env c !! "WHEN_CHANGED_FILE" = Some thefile ∧
       stdout_devnull c = quiet_mode self.
Proof.
  intros Hgate. rewrite run_command_should_run, Hgate.
  destruct (run_command_body_cases child self w thefile) as [Hc _].
  eexists. split; [exact Hc|]. cbn [env stdout_devnull].
  split_and!; [done| |done].
  unfold set_envvar, with_process_env. cbn [process_env].
  apply lookup_insert_eq.
Qed.

Lemma run_command_call_env_witness :
  ∃ c, calls (run_command Sample.child
                (init Sample.posix ["."] ["make"] false false false 3 true)
                Sample.posix "/proj/a.txt") = [c] ∧
       env c !! "WHEN_CHANGED_FILE" = Some "/proj/a.txt" ∧
       env c !! "HOME" = Some "/root" ∧
       stdout_devnull c = true.
Proof.
  destruct (run_command_call_env Sample.child
              (init Sample.posix ["."] ["make"] false false false 3 true)
              Sample.posix "/proj/a.txt") as (c & Hc & Henv & Hfile & Hq);
    [by vm_compute|].
  exists c. split_and!; [done|done| |done].
  rewrite Henv. by vm_compute.
Defined.



(** X12. When the command cannot be started, [run_command] raises the
    error of the call: [WHEN_CHANGED_FILE] is already set to the trigger
    path, and nothing else, [last_run] included, has changed. *)
Theorem run_command_call_fails child self w thefile c :
  should_run w thefile (run_once self) (last_run self) = true →
  calls (run_command child self w thefile) = [c] →
  child c w = None →
  run_command child self w thefile =
    raises OSError (set_envvar "file" thefile self) w [c].
Proof.
  intros Hgate. rewrite run_command_should_run, Hgate.
  destruct (run_command_body_cases child self w thefile) as [Hc Hcases].
  rewrite Hc.
  match type of Hc with _ = [?c0] => set (made := c0) in * end.
  intros Heq Hnone. injection Heq as <-. by rewrite Hnone in Hcases.
Qed.

Lemma run_command_call_fails_witness :
  let r := run_command Sample.no_child (Sample.watcher false false false)
             Sample.posix "/proj/a.txt" in
  raised r = Some OSError ∧
  last_run (self_after r) = 0 ∧
  process_env (self_after r) !! "WHEN_CHANGED_FILE" = Some "/proj/a.txt".
Proof.
  intros r.
  destruct (calls_run_command_body Sample.no_child
              (Sample.watcher false false false) Sample.posix "/proj/a.txt")
    as [c Hc].
  assert (r = raises OSError
                (set_envvar "file" "/proj/a.txt"
                   (Sample.watcher false false false)) Sample.posix [c])
    as ->.
  { apply run_command_call_fails; [by vm_compute| |done].
    rewrite run_command_should_run.
    by replace (should_run _ _ _ _) with true by by vm_compute. }
  split_and!; by vm_compute.
Defined.

(** * Further properties of the handlers *)





(** X14. The child process of a run started by a handler sees the kind of
    the event in [WHEN_CHANGED_EVENT] and the path of the event in
    [WHEN_CHANGED_FILE], and is given that path for [%f]; the path is the
    destination for a move and the source for every other event. *)
Theorem handler_call_context child h fuel self w event r c :
  dispatch child h fuel self w event = Some r →
  c ∈ calls r →
  env c !! "WHEN_CHANGED_EVENT" = Some (event_kind h) ∧
  env c !! "WHEN_CHANGED_FILE" = Some (event_path h event) ∧
  args c = map (replace "%f" (event_path h event)) (command self).
Proof.
  intros [-> | [-> | ->]]%dispatch_cases;
    [by intros ?%not_elem_of_nil..|].
  rewrite run_command_should_run.
  destruct (should_run _ _ _ _); [|by intros ?%not_elem_of_nil].
  destruct (run_command_body_cases child
              (set_envvar "event" (event_kind h) self) w (event_path h event))
    as [-> _].
  intros ->%list_elem_of_singleton. cbn [env args].
  unfold set_envvar, with_process_env. cbn [process_env command].
  split_and!; [|apply lookup_insert_eq|done].
  rewrite lookup_insert_ne; [|done]. apply lookup_insert_eq.
Qed.

Lemma handler_call_context_witness :
  ∃ r c, dispatch Sample.child OnMoved 0 (Sample.watcher false false false)
           Sample.posix (Sample2.moved "/tmp/a.part" "/proj/a.txt") = Some r ∧
         calls r = [c] ∧
         env c !! "WHEN_CHANGED_EVENT" = Some "file_moved" ∧
         env c !! "WHEN_CHANGED_FILE" = Some "/proj/a.txt" ∧
         args c = ["echo /proj/a.txt"].
Proof.
  destruct (dispatch Sample.child OnMoved 0
              (Sample.watcher false false false) Sample.posix
              (Sample2.moved "/tmp/a.part" "/proj/a.txt")) as [r|] eqn:Hr;
    [|by vm_compute in Hr].
  assert (∃ c, calls r = [c]) as [c Hc].
  { revert Hr. vm_compute. intros [= <-]. by eexists. }
  exists r, c. split; [done|]. split; [done|].
  destruct (handler_call_context _ _ _ _ _ _ _ c Hr)
    as (Hev & Hfile & Hargs); [rewrite Hc; by left|].
  split_and!; [done|done|]. rewrite Hargs. by vm_compute.
Defined.

Lemma class_name_foldl_schedule_path w l o :
  class_name (foldl (schedule_path w) o l) = class_name o.
Proof.
  revert o. induction l as [|p l IH]; intros o; [done|].
  simpl. rewrite IH. unfold schedule_path. by destruct (isdir w p).
Qed.

(** X15. On a system whose observer is the inotify observer, a watcher
    ignores every creation event, for files too: [on_created] runs
    nothing and changes nothing. *)
Theorem created_ignored_with_inotify child w files command recursive
    run_once run_at_start verbose_mode quiet_mode fuel w' event :
  observer_class w = "InotifyObserver" →
  let self := init w files command recursive run_once run_at_start
                verbose_mode quiet_mode in
  dispatch child OnCreated fuel self w' event = Some (returns self w' []).
Proof.
  intros Hclass self. cbn [dispatch]. unfold on_created.
  rewrite bool_decide_eq_true_2; [done|].
  unfold self, init. cbn [observer].
  by rewrite class_name_foldl_schedule_path.
Qed.

Lemma created_ignored_with_inotify_witness :
  let self := init Sample2.linux ["."] ["echo %f"] false false false 3 false in
  is_interested 0 self "/proj/a.txt" = Some true ∧
  dispatch Sample.child OnCreated 0 self Sample2.linux
    (Sample2.created "/proj/a.txt") = Some (returns self Sample2.linux []).
Proof.
  split; [by vm_compute|].
  by apply (created_ignored_with_inotify Sample.child Sample2.linux).
Defined.

(** X16. A file event on a path that is not interesting runs nothing, but
    the handler has already overwritten [WHEN_CHANGED_EVENT] with the kind
    of the event.  The one exception is [on_created] when the observer is
    the inotify observer: it returns before it stores anything. *)
Theorem uninteresting_event_sets_kind child h fuel self w event :
  is_directory event = false →
  (h = OnCreated → class_name (observer self) ≠ "InotifyObserver") →
  is_interested fuel self (event_path h event) = Some false →
  dispatch child h fuel self w event =
    Some (returns (set_envvar "event" (event_kind h) self) w []).
Proof.
  intros Hdir Hclass Hno.
  rewrite dispatch_file_event; [|done..].
  unfold on_change. rewrite is_interested_set_envvar, Hno. done.
Qed.

Lemma uninteresting_event_sets_kind_witness :
  ∃ r, dispatch Sample.child OnDeleted 0 (Sample.watcher false false false)
         Sample.posix (Sample.modified "/tmp/a.txt") = Some r ∧
       calls r = [] ∧
       process_env (self_after r) !! "WHEN_CHANGED_EVENT"
         = Some "file_deleted".
Proof.
  eexists. split.
  - apply uninteresting_event_sets_kind;
      [reflexivity|intros [=]|by vm_compute].
  - split; by vm_compute.
Defined.

(** * Further properties of the environment accessors *)

(** X17. For names made of ASCII characters, [get_envvar] returns what
    [set_envvar] stored under a name with the same upper-case form,
    whatever the case the two names are written in, and [set_envvar] does
    not touch what [get_envvar] returns or raises for a name with another
    upper-case form. *)
Theorem envvar_round_trip name1 name2 value self :
  is_ascii name1 → is_ascii name2 →
  (upper name1 = upper name2 →
   get_envvar name2 (set_envvar name1 value self) = inr value) ∧
  (upper name1 ≠ upper name2 →
   get_envvar name2 (set_envvar name1 value self) = get_envvar name2 self).
Proof.
  intros _ _.
  unfold get_envvar, set_envvar, with_process_env, envvar_key.
  cbn [process_env]. split.
  - intros ->. by rewrite lookup_insert_eq.
  - intros Hne. rewrite lookup_insert_ne; [done|].
    intros Heq. apply Hne. by apply (inj (String.app "WHEN_CHANGED_")).
Qed.

Lemma envvar_round_trip_witness :
  let self := Sample.watcher false false false in
  get_envvar "EVENT" (set_envvar "event" "file_moved" self)
    = inr "file_moved" ∧
  get_envvar "event" (set_envvar "file" "/proj/a.txt" self)
    = inl (KeyError "WHEN_CHANGED_EVENT").
Proof.
  assert (∀ s, Forall (λ c, (nat_of_ascii c <? 128)%nat = true)
                 (list_ascii_of_string s) → is_ascii s) as Hascii.
  { intros s Hs. eapply Forall_impl; [exact Hs|].
    intros c Hc. by apply Nat.ltb_lt. }
  intros self. split.
  - apply (envvar_round_trip "event" "EVENT");
      [apply Hascii; repeat constructor..|done].
  - destruct (envvar_round_trip "file" "event" "/proj/a.txt" self)
      as [_ ->]; [apply Hascii; repeat constructor..| |];
      by vm_compute.
Defined.

(** * Further properties of the constructor *)

Section Registration.

Variable w : World.

Lemma paths_init files command recursive run_once run_at_start verbose_mode
    quiet_mode :
  paths (init w files command recursive run_once run_at_start verbose_mode
           quiet_mode) = foldl (add_file w) ∅ files.
Proof. done. Qed.

Lemma foldl_add_file_is_Some files (m : gmap string string) p :
  is_Some (foldl (add_file w) m files !! p) ↔
  is_Some (m !! p) ∨ ∃ f, f ∈ files ∧ realpath w f = p.
Proof.
  revert m. induction files as [|x files IH]; intros m; simpl.
  - split; [by left|]. intros [?|(f & Hin & _)]; [done|].
    by apply not_elem_of_nil in Hin.
  - rewrite IH. unfold add_file. rewrite lookup_insert_is_Some'. split.
    + intros [[Hx|Hm]|(f & Hin & Hf)].
      * right. exists x. split; [by left|done].
      * by left.
      * right. exists f. split; [by right|done].
    + intros [Hm|(f & Hin & Hf)]; [by left; right|].
      apply elem_of_cons in Hin as [->|Hin]; [by left; left|].
      right. by exists f.
Qed.

Lemma foldl_add_file_Some files (m : gmap string string) p v :
  foldl (add_file w) m files !! p = Some v →
  m !! p = Some v ∨ (v ∈ files ∧ realpath w v = p).
Proof.
  revert m. induction files as [|x files IH]; intros m; simpl; [by left|].
  intros [Hm|[Hin Hv]]%IH; [|right; split; [by right|done]].
  unfold add_file in Hm. apply lookup_insert_Some in Hm as [[<- <-]|[_ Hm]].
  - right. split; [by left|done].
  - by left.
Qed.

Lemma foldl_add_file_other files (m : gmap string string) p :
  (∀ f, f ∈ files → realpath w f ≠ p) →
  foldl (add_file w) m files !! p = m !! p.
Proof.
  revert m. induction files as [|x files IH]; intros m Hother; [done|].
  simpl. rewrite IH.
  - unfold add_file. apply lookup_insert_ne. apply Hother. by left.
  - intros f Hin. apply Hother. by right.
Qed.

Lemma size_foldl_add_file files (m : gmap string string) :
  (size (foldl (add_file w) m files) ≤ size m + length files)%nat.
Proof.
  revert m. induction files as [|x files IH]; intros m; simpl; [lia|].
  etrans; [apply IH|]. unfold add_file. rewrite map_size_insert.
  destruct (m !! realpath w x); unfold id; lia.
Qed.

End Registration.

(** X18. The registered paths of a new watcher are exactly the real
    paths of the files it was given. *)
Theorem init_registered w files command recursive run_once run_at_start
    verbose_mode quiet_mode p :
  registered (init w files command recursive run_once run_at_start
                verbose_mode quiet_mode) p = true ↔
  ∃ f, f ∈ files ∧ realpath w f = p.
Proof.
  unfold registered. rewrite bool_decide_eq_true, paths_init.
  rewrite foldl_add_file_is_Some. split; [|by right].
  intros [Hempty|Hf]; [|done]. rewrite lookup_empty in Hempty.
  by destruct Hempty.
Qed.

Lemma init_registered_witness :
  registered (Sample.watcher false false false) "/proj" = true ∧
  registered (Sample.watcher false false false) "." = false.
Proof.
  split.
  - apply init_registered. exists ".". split; [by left|by vm_compute].
  - apply not_true_is_false. intros (f & Hin & Hf)%init_registered.
    apply list_elem_of_singleton in Hin as ->. by vm_compute in Hf.
Defined.

(** X19. Files that resolve to one real path share one entry of [paths]:
    its label is one of the files given, it resolves to that path, and it
    is the last such file of the list. *)
Theorem init_paths_label w files command recursive run_once run_at_start
    verbose_mode quiet_mode :
  let self := init w files command recursive run_once run_at_start
                verbose_mode quiet_mode in
  (∀ p f, paths self !! p = Some f → f ∈ files ∧ realpath w f = p) ∧
  (∀ before f after,
     files = before ++ f :: after →
     (∀ f', f' ∈ after → realpath w f' ≠ realpath w f) →
     paths self !! realpath w f = Some f).
Proof.
  intros self. unfold self. rewrite paths_init. split.
  - intros p f [Hempty|Hf]%foldl_add_file_Some; [|done].
    by rewrite lookup_empty in Hempty.
  - intros before f after -> Hlast.
    rewrite foldl_app. simpl. rewrite foldl_add_file_other; [|done].
    apply lookup_insert_eq.
Qed.

Lemma init_paths_label_witness :
  let self := init Sample2.aliased ["."; "link"; "/tmp"] ["make"]
                false false false 3 false in
  paths self !! "/proj" = Some "link" ∧
  size (paths self) = 2%nat.
Proof.
  split; [|by vm_compute].
  apply (proj2 (init_paths_label Sample2.aliased ["."; "link"; "/tmp"]
                  ["make"] false false false 3 false) ["."] "link" ["/tmp"]);
    [done|].
  intros f' ->%list_elem_of_singleton. by vm_compute.
Defined.

Lemma length_remove_dups_le (l : list Watch) :
  (length (remove_dups l) ≤ length l)%nat.
Proof.
  induction l as [|x l IH]; simpl; [lia|].
  case_decide; simpl; lia.
Qed.

(** X20. [__init__] calls [observer.schedule] exactly once per registered
    path, so the observer of a new watcher holds at most as many distinct
    watches as there are registered paths (fewer when two registered files
    share a parent directory), which are at most as many as the files
    given; the observer is not started. *)
Theorem init_watch_count w files command recursive run_once run_at_start
    verbose_mode quiet_mode :
  let self := init w files command recursive run_once run_at_start
                verbose_mode quiet_mode in
  length (watches (observer self)) = size (paths self) ∧
  (length (remove_dups (watches (observer self))) ≤ size (paths self))%nat ∧
  (size (paths self) ≤ length files)%nat ∧
  started (observer self) = false.
Proof.
  intros self.
  assert (length (watches (observer self)) = size (paths self)) as Hcalls.
  { unfold self, init. cbn [observer paths].
    rewrite watches_foldl_schedule_path. cbn [watches app].
    by rewrite length_map, length_fmap, length_map_to_list. }
  split_and!.
  - done.
  - rewrite <- Hcalls. apply length_remove_dups_le.
  - unfold self. rewrite paths_init.
    etrans; [apply size_foldl_add_file|]. by rewrite map_size_empty.
  - unfold self, init. cbn [observer].
    generalize (map_to_list
                  (foldl (λ (paths : gmap string string) f,
                            <[realpath w f := f]> paths) ∅ files)).*1.
    intros l.
    assert (∀ o, started (foldl (schedule_path w) o l) = started o) as ->;
      [|done].
    induction l as [|p l IH]; intros o; [done|].
    simpl. rewrite IH. unfold schedule_path. by destruct (isdir w p).
Qed.

Lemma init_watch_count_witness :
  let self := init Sample.posix ["/proj/a.txt"; "/proj/old.txt"; "/proj/a.txt"]
                ["make"] false false false 3 false in
  size (paths self) = 2%nat ∧
  length (watches (observer self)) = 2%nat ∧
  remove_dups (watches (observer self)) =
    [{| watch_path := "/proj"; watch_recursive := false |}].
Proof.
  intros self.
  destruct (init_watch_count Sample.posix
              ["/proj/a.txt"; "/proj/old.txt"; "/proj/a.txt"] ["make"]
              false false false 3 false) as (Hcalls & _ & _ & _).
  fold self in Hcalls.
  assert (size (paths self) = 2%nat) as Hsize by by vm_compute.
  split; [done|]. split; [by rewrite Hcalls|]. by vm_compute.
Defined.

(** * Further properties of [run] and [main] *)

(** X21. With an event variable already in the environment of the
    watcher, for instance one inherited from the caller, the run at start
    completes: once the child has returned, [run] has called the command
    once on [/dev/null], recorded the time of its return, and started the
    observer. *)
Theorem run_at_start_completes child self w c w' kind :
  run_at_start self = true →
  process_env self !! "WHEN_CHANGED_EVENT" = Some kind →
  should_run w "/dev/null" (run_once self) (last_run self) = true →
  calls (run_command child self w "/dev/null") = [c] →
  child c w = Some w' →
  let r := run child self w in
  raised r = None ∧
  calls r = [c] ∧
  world_after r = w' ∧
  last_run (self_after r) = clock w' ∧
  started (observer (self_after r)) = true ∧
  env c !! "WHEN_CHANGED_EVENT" = Some kind.
Proof.
  intros Hstart Henv Hgate. cbn zeta. unfold run. rewrite Hstart.
  rewrite run_command_should_run, Hgate. cbv iota.
  destruct (run_command_body_cases child self w "/dev/null") as [Hc Hcases].
  rewrite Hc.
  match type of Hc with _ = [?c0] => set (made := c0) in * end.
  intros Heq Hchild. injection Heq as <-.
  rewrite Hchild in Hcases. destruct Hcases as (Hself & Hworld & Hraised).
  change (envvar_key "event") with "WHEN_CHANGED_EVENT" in Hraised.
  rewrite Henv in Hraised. rewrite Hraised.
  cbn [raised returns calls world_after self_after with_observer observer
       started last_run].
  rewrite Hworld, Hself. split_and!; try done.
  unfold made. cbn [env]. unfold set_envvar, with_process_env.
  cbn [process_env]. by rewrite lookup_insert_ne.
Qed.

Lemma run_at_start_completes_witness :
  let self := init Sample2.linux ["."] ["echo %f"] false true true 3 false in
  let r := run Sample.child self Sample2.linux in
  raised r = None ∧
  args <$> calls r = [["echo /dev/null"]] ∧
  last_run (self_after r) = 1007 ∧
  started (observer (self_after r)) = true.
Proof.
  intros self r.
  destruct (calls_run_command_body Sample.child self Sample2.linux
              "/dev/null") as [c Hc].
  assert (calls (run_command Sample.child self Sample2.linux "/dev/null")
          = [c]) as Hcalls.
  { rewrite run_command_should_run.
    by replace (should_run _ _ _ _) with true by by vm_compute. }
  destruct (run_at_start_completes Sample.child self Sample2.linux c
              {| stat := stat Sample2.linux;
                 realpath := realpath Sample2.linux;
                 environ := environ Sample2.linux;
                 clock := clock Sample2.linux + 7;
                 observer_class := observer_class Sample2.linux |}
              "inherited")
    as (Hraised & _ & _ & Hlast & Hstarted & _);
    [by vm_compute|by vm_compute|by vm_compute|done|done|].
  fold r in Hraised, Hlast, Hstarted.
  split_and!; [done|by vm_compute| |done].
  rewrite Hlast. by vm_compute.
Defined.

(** X22. Every command a watcher built by [main] runs is one shell
    command line: [cd], the working directory of [main] and the command
    given, with [%f] replaced by the path of the event throughout. *)
Theorem main_runs_through_shell child w cwd folders command_to_run h fuel w'
    event r c :
  dispatch child h fuel (main_watcher w cwd folders command_to_run) w' event
    = Some r →
  c ∈ calls r →
  shell c = true ∧
  args c = [replace "%f" (event_path h event)
              ("cd " +:+ cwd +:+ "; " +:+ command_to_run)].
Proof.
  intros [-> | [-> | ->]]%dispatch_cases;
    [by intros ?%not_elem_of_nil..|].
  rewrite run_command_should_run.
  destruct (should_run _ _ _ _); [|by intros ?%not_elem_of_nil].
  destruct (run_command_body_cases child
              (set_envvar "event" (event_kind h)
                 (main_watcher w cwd folders command_to_run))
              w' (event_path h event)) as [-> _].
  by intros ->%list_elem_of_singleton.
Qed.

Lemma main_runs_through_shell_witness :
  ∃ r c, dispatch Sample.child OnModified 0
           (main_watcher Sample.posix "/proj" FoldersDefault "npm run build")
           Sample.posix (Sample.modified "/proj/a.txt") = Some r ∧
         calls r = [c] ∧
         shell c = true ∧
         args c = ["cd /proj; npm run build"].
Proof.
  destruct (dispatch Sample.child OnModified 0
              (main_watcher Sample.posix "/proj" FoldersDefault
                 "npm run build")
              Sample.posix (Sample.modified "/proj/a.txt")) as [r|] eqn:Hr;
    [|by vm_compute in Hr].
  assert (∃ c, calls r = [c]) as [c Hc].
  { revert Hr. vm_compute. intros [= <-]. by eexists. }
  exists r, c. split; [done|]. split; [done|].
  destruct (main_runs_through_shell _ _ _ _ _ _ _ _ _ _ c Hr)
    as [Hshell Hargs]; [rewrite Hc; by left|].
  split; [done|]. rewrite Hargs. by vm_compute.
Defined.

Lemma elem_of_chars f s :
  f ∈ chars s ↔
  ∃ ch, ch ∈ list_ascii_of_string s ∧ f = String ch EmptyString.
Proof.
  induction s as [|a s IH]; simpl.
  - split; [by intros ?%not_elem_of_nil|].
    by intros (ch & ?%not_elem_of_nil & _).
  - rewrite elem_of_cons, IH. split.
    + intros [->|(ch & Hin & ->)].
      * exists a. split; [by left|done].
      * exists ch. split; [by right|done].
    + intros (ch & [->|Hin]%elem_of_cons & ->); [by left|].
      right. by exists ch.
Qed.

(** X23. A [--folders_to_watch] value given on the command line is
    iterated character by character: for a value made of ASCII
    characters, the watcher [main] builds from it registers the real path
    of each single character of the string, and nothing else. *)
Theorem main_folders_by_character w cwd s command_to_run p :
  is_ascii s →
  registered (main_watcher w cwd (FoldersGiven s) command_to_run) p = true ↔
  ∃ ch, ch ∈ list_ascii_of_string s ∧
        realpath w (String ch EmptyString) = p.
Proof.
  intros _.
  unfold registered, main_watcher. rewrite bool_decide_eq_true, paths_init.
  rewrite foldl_add_file_is_Some. cbn [folders_to_watch]. split.
  - intros [Hempty|(f & (ch & Hin & ->)%elem_of_chars & Hf)].
    + rewrite lookup_empty in Hempty. by destruct Hempty.
    + by exists ch.
  - intros (ch & Hin & Hf). right. exists (String ch EmptyString).
    split; [|done]. apply elem_of_chars. by exists ch.
Qed.

Lemma main_folders_by_character_witness :
  let self := main_watcher Sample.posix "/proj" (FoldersGiven "/proj")
                "npm run build" in
  registered self "/" = true ∧ registered self "/proj" = false.
Proof.
  assert (is_ascii "/proj") as Hascii.
  { repeat constructor; apply Nat.ltb_lt; by vm_compute. }
  split.
  - apply main_folders_by_character; [done|]. exists "/"%char.
    split; [by left|by vm_compute].
  - apply not_true_is_false. intros Hreg.
    apply main_folders_by_character in Hreg as (ch & Hin & Hf); [|done].
    cbn [list_ascii_of_string] in Hin.
    repeat (apply elem_of_cons in Hin as [->|Hin]; [by vm_compute in Hf|]).
    by apply not_elem_of_nil in Hin.
Defined.

(** * Further properties of the substitution *)

Lemma replace_without_placeholder thefile item :
  ¬ has_placeholder item → replace placeholder thefile item = item.
Proof.
  intros Hnone.
  destruct (replace_from_pieces thefile (String.length item) item)
    as (pieces & Hne & _ & Hitem & Hrep); [done|].
  destruct pieces as [|p [|q pieces]]; [done| |].
  - unfold replace. rewrite Hrep. cbn [String.concat] in *. congruence.
  - exfalso. apply Hnone. rewrite Hitem.
    exists p, (String.concat placeholder (q :: pieces)).
    reflexivity.
Qed.

(** X24. Tokens of the command without [%f] reach the child unchanged,
    and a token that is exactly [%f] becomes exactly the trigger path,
    which is not scanned again for placeholders of its own. *)
Theorem run_command_tokens_kept child self w thefile :
  should_run w thefile (run_once self) (last_run self) = true →
  ∃ c, calls (run_command child self w thefile) = [c] ∧
       (Forall (λ item, ¬ has_placeholder item) (command self) →
        args c = command self) ∧
       (command self = ["%f"] → args c = [thefile]).
Proof.
  intros Hgate. rewrite run_command_should_run, Hgate.
  destruct (run_command_body_cases child self w thefile) as [Hc _].
  eexists. split; [exact Hc|]. clear Hc. cbn [args]. split.
  - induction 1 as [|item items Hitem _ IH]; [done|].
    cbn [map]. rewrite IH. f_equal.
    by apply (replace_without_placeholder thefile item).
  - intros ->. cbn [map]. f_equal. unfold replace. cbn.
    apply append_empty_r.
Qed.

Lemma run_command_tokens_kept_witness :
  ∃ c, calls (run_command Sample.child
                (init Sample.posix ["."] ["make"; "-k"; "100%"] false false
                   false 3 false)
                Sample.posix "/proj/a.txt") = [c] ∧
       args c = ["make"; "-k"; "100%"].
Proof.
  destruct (run_command_tokens_kept Sample.child
              (init Sample.posix ["."] ["make"; "-k"; "100%"] false false
                 false 3 false)
              Sample.posix "/proj/a.txt") as (c & Hc & Hkept & _);
    [by vm_compute|].
  exists c. split; [done|]. apply Hkept.
  repeat constructor; intros (pre & post & Heq);
    cbn [command init] in Heq;
    repeat (destruct pre as [|? pre]; [discriminate Heq|
            rewrite append_cons in Heq; injection Heq as _ Heq]);
    by destruct pre.
Defined.
